(** * malpolon.data.utils: geometry predicates, one-hot encoding,
    recursive file discovery and the two train/val splitters.

  A shallow embedding of [src/malpolon/data/utils.py] and the properties
  its specification states about it.  Python exceptions are results of an
  error monad; calls into third-party libraries (shapely, numpy, pandas,
  verde, [os.walk], [re]) are embedded by what their documentation says
  they compute on the inputs this module hands them. *)

From Stdlib Require Import List ZArith QArith Qminmax Bool Arith Lia Lqa.
From Stdlib Require Import String Ascii Permutation Sorted.
From Stdlib Require Import Floats Uint63.
Import ListNotations.
Close Scope Q_scope.

Set Implicit Arguments.

(* ================================================================== *)
(** * Python results *)

Module Py.

(** The exceptions that the embedded code can raise, and one marker,
    [Unmodelled], for inputs on which a third-party call has no
    documented answer (invalid geometry, regular-expression syntax
    outside the embedded fragment, a method working on other types). *)
Inductive exn : Set :=
| IndexError
| KeyError
| ValueError
| OverflowError
| ZeroDivisionError
| UnboundLocalError
| ReError
| Unmodelled.

Inductive res (A : Type) : Type :=
| Ok (a : A)
| Raise (e : exn).
Arguments Ok {A} a.
Arguments Raise {A} e.

Definition bind {A B} (m : res A) (k : A -> res B) : res B :=
  match m with
  | Ok a => k a
  | Raise e => Raise e
  end.

Definition of_option {A} (e : exn) (o : option A) : res A :=
  match o with
  | Some a => Ok a
  | None => Raise e
  end.

(** [mapM f l]: a comprehension or loop whose body may raise; the first
    exception, in list order, ends it. *)
Fixpoint mapM {A B} (f : A -> res B) (l : list A) : res (list B) :=
  match l with
  | [] => Ok []
  | a :: l' =>
      bind (f a) (fun b => bind (mapM f l') (fun bs => Ok (b :: bs)))
  end.

(** [filterM p l]: a comprehension with a condition that may raise. *)
Fixpoint filterM {A} (p : A -> res bool) (l : list A) : res (list A) :=
  match l with
  | [] => Ok []
  | a :: l' =>
      bind (p a) (fun b =>
      bind (filterM p l') (fun r => Ok (if b then a :: r else r)))
  end.

End Py.

Import Py.

Declare Scope py_scope.
Delimit Scope py_scope with py.
Notation "x <- m ;; k" := (Py.bind m (fun x => k))
(at level 61, m at next level, right associativity) : py_scope.
Notation "' pat <- m ;; k" := (Py.bind m (fun x => match x with pat => k end))
(at level 61, pat pattern, m at next level, right associativity) : py_scope.
Open Scope py_scope.
Open Scope string_scope.

(* ================================================================== *)
(** * Geometry predicates *)

Module Geometry.

Local Open Scope Q_scope.

(** Coordinates are Python floats that the code only compares; finite
    floats compare as the rationals they denote. *)
Definition coord := Q.

(** A box [[xmin, ymin, xmax, ymax]]: [bbox[0]] .. [bbox[3]]. *)
Record BBox : Set := mkBBox { b0 : coord; b1 : coord; b2 : coord; b3 : coord }.

(** A point [[x, y]]. *)
Record Point : Set := mkPoint { px : coord; py : coord }.

Definition ge (a b : coord) : bool := Qle_bool b a.
Definition le (a b : coord) : bool := Qle_bool a b.
Definition lt (a b : coord) : bool := negb (Qle_bool b a).

(** ** shapely

    [Polygon([(x0, y0), (x0, y1), (x1, y1), (x1, y0)])] is the
    axis-aligned rectangle spanned by the corners [(x0, y0)] and
    [(x1, y1)], whichever way round they are given. *)
Record Polygon : Set := mkPolygon { v0 : Point; v1 : Point; v2 : Point; v3 : Point }.

Definition min4 (a b c d : coord) : coord := Qmin (Qmin a b) (Qmin c d).
Definition max4 (a b c d : coord) : coord := Qmax (Qmax a b) (Qmax c d).

Definition minx (p : Polygon) := min4 (px (v0 p)) (px (v1 p)) (px (v2 p)) (px (v3 p)).
Definition maxx (p : Polygon) := max4 (px (v0 p)) (px (v1 p)) (px (v2 p)) (px (v3 p)).
Definition miny (p : Polygon) := min4 (py (v0 p)) (py (v1 p)) (py (v2 p)) (py (v3 p)).
Definition maxy (p : Polygon) := max4 (py (v0 p)) (py (v1 p)) (py (v2 p)) (py (v3 p)).

(** A polygon of area zero is not a valid geometry, and the predicates
    are documented for valid geometries only. *)
Definition is_valid (p : Polygon) : bool :=
  lt (minx p) (maxx p) && lt (miny p) (maxy p).

(** [object.contains(other)]: no point of [other] lies in the exterior of
    [object] and at least one point of the interior of [other] lies in
    the interior of [object].  A point has itself as interior, so a
    rectangle contains it when it lies strictly inside. *)
Definition contains_point (p : Polygon) (q : Point) : res bool :=
  if is_valid p
  then Ok (lt (minx p) (px q) && lt (px q) (maxx p)
           && lt (miny p) (py q) && lt (py q) (maxy p))
  else Raise Unmodelled.

(** For a rectangle [other] of positive area, lying within the closed
    rectangle [object] already puts its interior in that of [object]. *)
Definition contains_polygon (p other : Polygon) : res bool :=
  if is_valid p && is_valid other
  then Ok (le (minx p) (minx other) && le (maxx other) (maxx p)
           && le (miny p) (miny other) && le (maxy other) (maxy p))
  else Raise Unmodelled.

Definition polygon_of_bbox (b : BBox) : Polygon :=
  mkPolygon (mkPoint (b0 b) (b1 b)) (mkPoint (b0 b) (b3 b))
            (mkPoint (b2 b) (b3 b)) (mkPoint (b2 b) (b1 b)).

(** ** The two predicates *)

Definition is_bbox_contained (bbox1 bbox2 : BBox) (method : string) : res bool :=
  if String.eqb method "manual" then
    Ok (ge (b0 bbox1) (b0 bbox2) && le (b0 bbox1) (b2 bbox2)
        && ge (b2 bbox1) (b0 bbox2) && le (b2 bbox1) (b2 bbox2)
        && ge (b1 bbox1) (b1 bbox2) && le (b1 bbox1) (b3 bbox2)
        && ge (b3 bbox1) (b1 bbox2) && le (b3 bbox1) (b3 bbox2))
  else if String.eqb method "shapely" then
    let polygon1 := polygon_of_bbox bbox1 in
    let polygon2 := polygon_of_bbox bbox2 in
    contains_polygon polygon2 polygon1
  else if String.eqb method "torchgeo" then
    (* [bbox1 in bbox2] on torchgeo's BoundingBox objects, another type *)
    Raise Unmodelled
  else Raise UnboundLocalError.

Definition is_point_in_bbox (point : Point) (bbox : BBox) (method : string) : res bool :=
  if String.eqb method "manual" then
    Ok (ge (px point) (b0 bbox) && le (px point) (b2 bbox)
        && ge (py point) (b1 bbox) && le (py point) (b3 bbox))
  else if String.eqb method "shapely" then
    let polygon2 := polygon_of_bbox bbox in
    contains_point polygon2 point
  else Raise UnboundLocalError.

(** The value of the [method] parameter when the caller gives none. *)
Definition default_method : string := "shapely".

(** ** Vocabulary of the specification *)

(** [inside p b]: [p] lies within the bounds of [b], bounds included. *)
Definition inside (p : Point) (b : BBox) : Prop :=
  b0 b <= px p /\ px p <= b2 b /\ b1 b <= py p /\ py p <= b3 b.

Definition corners (b : BBox) : list Point :=
  [mkPoint (b0 b) (b1 b); mkPoint (b0 b) (b3 b);
   mkPoint (b2 b) (b3 b); mkPoint (b2 b) (b1 b)].

(** [on_boundary p b]: [p] lies within [b] and touches one of its bounds. *)
Definition on_boundary (p : Point) (b : BBox) : Prop :=
  inside p b /\
  (px p == b0 b \/ px p == b2 b \/ py p == b1 b \/ py p == b3 b).

(** A box with its bounds in order and of positive width and height. *)
Definition proper (b : BBox) : Prop := b0 b < b2 b /\ b1 b < b3 b.

(** A box of non-zero width and height, its bounds in either order. *)
Definition nondegenerate (b : BBox) : Prop := ~ b0 b == b2 b /\ ~ b1 b == b3 b.

(** A box with its horizontal bounds the wrong way round. *)
Definition disordered_box : BBox := mkBBox 2 0 0 2.
Definition small_box : BBox := mkBBox (1 # 2) (1 # 2) 1 1.

(** ** Examples *)

Definition unit_box : BBox := mkBBox 0 0 2 2.
Definition edge_point : Point := mkPoint 0 1.
Definition inner_box : BBox := mkBBox (1 # 2) 0 1 2.

End Geometry.

(* ================================================================== *)
(** * One-hot encoder *)

Module OneHot.

(** [labels_predict : int | list]. *)
Inductive labels : Set :=
| Single (l : Z)
| Many (ls : list Z).

(** [[labels_predict] if isinstance(labels_predict, int) else labels_predict] *)
Definition as_list (p : labels) : list Z :=
  match p with
  | Single l => [l]
  | Many ls => ls
  end.

(** [np.in1d(ar1, ar2)]: for each element of [ar1], whether it is in [ar2]. *)
Definition in1d (ar1 ar2 : list Z) : list bool :=
  map (fun a => existsb (Z.eqb a) ar2) ar1.

(** [np.zeros(n, dtype=np.float32)]; the entries only ever are 0.0 and 1.0. *)
Definition zeros (n : nat) : list Q := repeat 0%Q n.

(** [a[mask] = v] *)
Fixpoint set_mask (a : list Q) (mask : list bool) (v : Q) : list Q :=
  match a, mask with
  | x :: a', m :: mask' => (if m then v else x) :: set_mask a' mask' v
  | _, _ => a
  end.

Definition to_one_hot_encoding (labels_predict : labels) (labels_target : list Z) : list Q :=
  let labels_predict := as_list labels_predict in
  let n_classes := List.length labels_target in
  let one_hot_labels := zeros n_classes in
  set_mask one_hot_labels (in1d labels_target labels_predict) 1%Q.

(** [list.index]: the position of the first occurrence. *)
Fixpoint index (l : list Z) (x : Z) : option nat :=
  match l with
  | [] => None
  | y :: l' => if Z.eqb y x then Some 0%nat else option_map S (index l' x)
  end.

(** The entry for a mask bit. *)
Definition hot (b : bool) : Q := if b then 1%Q else 0%Q.

End OneHot.

(* ================================================================== *)
(** * Regular expressions: the fragment of [re] the file search uses *)

Module Regex.

Local Open Scope char_scope.
Local Open Scope nat_scope.

Inductive re : Set :=
| Eps                       (* the empty pattern *)
| Chr (c : ascii)           (* a literal character *)
| Any                       (* [.]: any character but a newline *)
| Bol                       (* [^]: the start of the string *)
| Eol                       (* [$]: the end, or just before a final newline *)
| Cat (r1 r2 : re)
| Alt (r1 r2 : re)
| Star (r : re).

(** ** Parsing

    One pass over the pattern with a stack of open groups.  A frame holds
    the finished branches of its group and the pieces of the branch being
    read, both latest first. *)
Record frame : Set := mkFrame { alts : list re; cur : list re }.

Definition empty_frame : frame := mkFrame [] [].

Definition push (p : re) (f : frame) : frame := mkFrame (alts f) (p :: cur f).

Definition seq_of (pieces : list re) : re :=
  fold_left (fun acc p => Cat p acc) pieces Eps.

Definition next_branch (f : frame) : frame :=
  mkFrame (seq_of (cur f) :: alts f) [].

Definition close (f : frame) : re :=
  fold_left (fun acc b => Alt b acc) (alts f) (seq_of (cur f)).

Definition is_alnum (c : ascii) : bool :=
  let n := nat_of_ascii c in
  ((48 <=? n) && (n <=? 57)) || ((65 <=? n) && (n <=? 90))
  || ((97 <=? n) && (n <=? 122)).

(** [[], [{], [+] and [?] open syntax that is left out of the fragment. *)
Definition is_unmodelled (c : ascii) : bool :=
  Ascii.eqb c "[" || Ascii.eqb c "{" || Ascii.eqb c "+" || Ascii.eqb c "?".

Fixpoint parse (s : list ascii) (top : frame) (below : list frame) : res re :=
  match s with
  | [] =>
      match below with
      | [] => Ok (close top)
      | _ :: _ => Raise ReError             (* missing ), unterminated subpattern *)
      end
  | c :: s' =>
      if Ascii.eqb c "\" then
        match s' with
        | [] => Raise ReError               (* bad escape (end of pattern) *)
        | d :: s'' =>
            if is_alnum d then Raise Unmodelled   (* \d, \w, \b, \1, \n, ... *)
            else parse s'' (push (Chr d) top) below
        end
      else if Ascii.eqb c "(" then parse s' empty_frame (top :: below)
      else if Ascii.eqb c ")" then
        match below with
        | [] => Raise ReError               (* unbalanced parenthesis *)
        | f :: below' => parse s' (push (close top) f) below'
        end
      else if Ascii.eqb c "|" then parse s' (next_branch top) below
      else if Ascii.eqb c "*" then
        match cur top with
        | [] => Raise ReError               (* nothing to repeat *)
        | Bol :: _ | Eol :: _ => Raise ReError
        | Star _ :: _ => Raise ReError      (* multiple repeat *)
        | p :: ps => parse s' (mkFrame (alts top) (Star p :: ps)) below
        end
      else if Ascii.eqb c "." then parse s' (push Any top) below
      else if Ascii.eqb c "^" then parse s' (push Bol top) below
      else if Ascii.eqb c "$" then parse s' (push Eol top) below
      else if is_unmodelled c then Raise Unmodelled
      else parse s' (push (Chr c) top) below
  end.

Definition compile (pattern : string) : res re :=
  parse (list_ascii_of_string pattern) empty_frame [].

(** ** Matching

    [ends r s i] lists the positions where a match of [r] that starts at
    position [i] of [s] can end. *)
Definition newline : ascii := "010".

Fixpoint star_ends (step : nat -> list nat) (fuel : nat) (i : nat) : list nat :=
  i :: match fuel with
       | O => []
       | S fuel' =>
           flat_map (star_ends step fuel') (filter (fun j => i <? j)%nat (step i))
       end.

Fixpoint ends (r : re) (s : list ascii) (i : nat) : list nat :=
  match r with
  | Eps => [i]
  | Chr c =>
      match nth_error s i with
      | Some d => if Ascii.eqb c d then [S i] else []
      | None => []
      end
  | Any =>
      match nth_error s i with
      | Some d => if Ascii.eqb d newline then [] else [S i]
      | None => []
      end
  | Bol => if (i =? 0)%nat then [i] else []
  | Eol =>
      if (i =? List.length s)%nat then [i]
      else if (S i =? List.length s)%nat
           then match nth_error s i with
                | Some d => if Ascii.eqb d newline then [i] else []
                | None => []
                end
           else []
  | Cat r1 r2 => flat_map (ends r2 s) (ends r1 s i)
  | Alt r1 r2 => ends r1 s i ++ ends r2 s i
  | Star r1 => star_ends (ends r1 s) (List.length s) i
  end.

Definition matches_at (r : re) (s : list ascii) (i : nat) : bool :=
  match ends r s i with
  | [] => false
  | _ :: _ => true
  end.

(** [re.search(pattern, string)], read as a truth value: a match may start
    at any position. *)
Definition search (pattern : string) (subject : string) : res bool :=
  r <- compile pattern ;;
  let s := list_ascii_of_string subject in
  Ok (existsb (matches_at r s) (seq 0 (S (List.length s)))).

(** ** Plain text

    What the parser and the matcher do with it is stated with these. *)

(** Characters that a regular expression reads as themselves. *)
Definition plain_char (c : ascii) : bool :=
  negb (existsb (Ascii.eqb c)
          (list_ascii_of_string ".^$*+?{}[]\|()")).

Definition plain_chars (w : list ascii) : Prop := forallb plain_char w = true.

(** The pieces of a literal word, latest first. *)
Definition pieces (w : list ascii) : list re := rev (map Chr w).

Definition push_all (w : list ascii) (f : frame) : frame :=
  mkFrame (alts f) (pieces w ++ cur f).

(** The frame after reading the extensions joined by [|]. *)
Fixpoint feed (exts : list (list ascii)) (f : frame) : frame :=
  match exts with
  | [] => f
  | [e] => push_all e f
  | e :: exts' => feed exts' (next_branch (push_all e f))
  end.

Definition chars (exts : list string) : list (list ascii) :=
  map list_ascii_of_string exts.

(** The pattern of the file search, compiled. *)
Definition template (suffix : list ascii) (exts : list (list ascii)) : re :=
  Cat Bol (Cat (Star Any) (Cat (close (push_all suffix empty_frame))
    (Cat (Chr ".") (Cat (close (feed exts empty_frame)) (Cat Eol Eps))))).

(** [at_pos w s i]: the word [w] stands in [s] at position [i]. *)
Fixpoint at_pos (w s : list ascii) (i : nat) : Prop :=
  match w with
  | [] => True
  | c :: w' => nth_error s i = Some c /\ at_pos w' s (S i)
  end.

Definition lit (w : list ascii) : re :=
  fold_right (fun c acc => Cat (Chr c) acc) Eps w.

Definition newline_free (s : list ascii) : Prop :=
  existsb (Ascii.eqb newline) s = false.

End Regex.

(* ================================================================== *)
(** * Recursive file discovery *)

Module Files.

(** A directory tree: what [os.scandir] lists, in its order. *)
#[warnings="-register-all"]
Inductive node : Set :=
| File
| Dir (entries : list (string * node)).

(** What a path resolves to; [None] when nothing exists there. *)
Definition filesystem := string -> option node.

Definition startswith_sep (s : string) : bool :=
  match s with
  | String c _ => Ascii.eqb c "/"
  | EmptyString => false
  end.

Fixpoint endswith_sep (s : string) : bool :=
  match s with
  | EmptyString => false
  | String c EmptyString => Ascii.eqb c "/"
  | String _ s' => endswith_sep s'
  end.

(** [os.path.join(a, b)] of [posixpath]. *)
Definition path_join (a b : string) : string :=
  if startswith_sep b then b
  else if (String.eqb a "" || endswith_sep a)%bool then a ++ b
  else a ++ "/" ++ b.

Definition is_dir (n : node) : bool :=
  match n with
  | Dir _ => true
  | File => false
  end.

Definition dirnames (es : list (string * node)) : list string :=
  map fst (filter (fun e => is_dir (snd e)) es).

Definition filenames (es : list (string * node)) : list string :=
  map fst (filter (fun e => negb (is_dir (snd e))) es).

(** [os.walk(top)], top-down: the triple of [top], then the walks of its
    subdirectories.  A failing [scandir] (nothing at [top], or a plain
    file) is ignored, as [onerror] is left unset: nothing is yielded. *)
Fixpoint walk (top : string) (n : node) : list (string * list string * list string) :=
  match n with
  | File => []
  | Dir es =>
      (top, dirnames es, filenames es)
      :: (fix subdirs (l : list (string * node))
            : list (string * list string * list string) :=
            match l with
            | [] => []
            | (name, child) :: l' =>
                (walk (path_join top name) child ++ subdirs l')%list
            end) es
  end.

Definition os_walk (fs : filesystem) (top : string) : list (string * list string * list string) :=
  match fs top with
  | Some n => walk top n
  | None => []
  end.

(** [ext[1:] if ext[0] == '.' else ext] *)
Definition strip_dot (ext : string) : res string :=
  match ext with
  | EmptyString => Raise IndexError
  | String c rest => Ok (if Ascii.eqb c "." then rest else ext)
  end.

(** [rf"^.*({suffix})\.({ext_list})$"] *)
Definition pattern (suffix ext_list : string) : string :=
  "^.*(" ++ suffix ++ ")\.(" ++ ext_list ++ ")$".

(** The pairs [(dp, f)] that the two [for] clauses run through. *)
Definition candidates (w : list (string * list string * list string)) : list (string * string) :=
  flat_map (fun t => map (pair (fst (fst t))) (snd t)) w.

Definition get_files_path_recursively
    (fs : filesystem) (path : string) (args : list string) (suffix : string)
  : res (list string) :=
  exts <- mapM strip_dot args ;;
  let ext_list := String.concat "|" exts in
  sel <- filterM (fun df => Regex.search (pattern suffix ext_list) (snd df))
                 (candidates (os_walk fs path)) ;;
  Ok (map (fun df => path_join (fst df) (snd df)) sel).

(** ** Vocabulary of the specification *)

(** The split of a file name at its last dot: the name before the
    extension, and the extension. *)
Fixpoint split_ext (f : list ascii) : option (list ascii * list ascii) :=
  match f with
  | [] => None
  | c :: f' =>
      match split_ext f' with
      | Some (stem, ext) => Some (c :: stem, ext)
      | None => if Ascii.eqb c "." then Some ([], f') else None
      end
  end.

Definition list_eqb (a b : list ascii) : bool :=
  String.eqb (string_of_list_ascii a) (string_of_list_ascii b).

(** [has_suffix w s]: [s] ends with [w]. *)
Definition has_suffix (w s : list ascii) : bool :=
  list_eqb (skipn (List.length s - List.length w) s) w.

(** The selection in the words of the specification: the extension of
    the file is in the set, and the name before the extension ends with
    the suffix. *)
Definition selected (suffix : string) (exts : list string) (f : string) : bool :=
  match split_ext (list_ascii_of_string f) with
  | Some (stem, ext) =>
      existsb (fun e => list_eqb ext (list_ascii_of_string e)) exts
      && has_suffix (list_ascii_of_string suffix) stem
  | None => false
  end.

Definition plain (s : string) : Prop :=
  forallb Regex.plain_char (list_ascii_of_string s) = true.

Definition no_newline (s : string) : Prop :=
  existsb (Ascii.eqb Regex.newline) (list_ascii_of_string s) = false.

(** An extension with one leading dot removed, as [strip_dot] leaves it. *)
Definition undot (ext : string) : string :=
  match ext with
  | String c rest => if Ascii.eqb c "." then rest else ext
  | EmptyString => ext
  end.

(** The tree of the specification's example: [a.csv], [b.txt], [sub/c.csv]. *)
Definition example_tree : node :=
  Dir [("a.csv", File); ("b.txt", File); ("sub", Dir [("c.csv", File)])].

Definition example_fs (root : string) : filesystem :=
  fun p => if String.eqb p root then Some example_tree else None.

(** A filesystem with one tree, at [root]. *)
Definition single (root : string) (n : node) : filesystem :=
  fun p => if String.eqb p root then Some n else None.

(** The entries of a directory that are not directories. *)
Definition only_files (es : list (string * node)) : list (string * node) :=
  filter (fun e => negb (is_dir (snd e))) es.

End Files.

(* ================================================================== *)
(** * Numbers: [float64] and [int64] as numpy and Python compute them *)

Module Numeric.

Local Open Scope Z_scope.

(** [float64(z)] for an [int64] value [z] (exact up to [2^53], rounded to
    nearest beyond). *)
Definition float_of_int (z : Z) : float :=
  if z <? 0 then PrimFloat.opp (PrimFloat.of_uint63 (Uint63.of_Z (- z)))
  else PrimFloat.of_uint63 (Uint63.of_Z z).

(** The integer nearest to [m * 2^e], a tie going to the even one. *)
Definition round_half_even (m : Z) (e : Z) : Z :=
  if 0 <=? e then m * 2 ^ e
  else
    let d := 2 ^ (- e) in
    let q := m / d in
    let r := m mod d in
    if 2 * r <? d then q
    else if d <? 2 * r then q + 1
    else if Z.even q then q else q + 1.

(** [round(x)] with no [ndigits], for a Python float or a [np.float64]. *)
Definition py_round (x : float) : res Z :=
  match Prim2SF x with
  | S754_zero _ => Ok 0
  | S754_infinity _ => Raise OverflowError
  | S754_nan => Raise ValueError
  | S754_finite s m e =>
      let n := round_half_even (Zpos m) e in
      Ok (if s then - n else n)
  end.

(** Storing a Python int into an [int64] array. *)
Definition to_int64 (z : Z) : res Z :=
  if (- 2 ^ 63 <=? z) && (z <? 2 ^ 63) then Ok z else Raise OverflowError.

(** [int64] arithmetic wraps around. *)
Definition wrap64 (z : Z) : Z := (z + 2 ^ 63) mod 2 ^ 64 - 2 ^ 63.

(** [1 / x] on Python floats. *)
Definition py_inverse (x : float) : res float :=
  if PrimFloat.eqb x 0%float then Raise ZeroDivisionError
  else Ok (PrimFloat.div 1%float x).

(** ** Vocabulary of the proofs *)

(** A float that is a number: a zero or a finite value. *)
Definition is_number (x : spec_float) : Prop :=
  match x with
  | S754_zero _ | S754_finite _ _ _ => True
  | _ => False
  end.

End Numeric.

(* ================================================================== *)
(** * Tables *)

Module Table.

(** A cell of a csv file as [pd.read_csv] types it. *)
Inductive cell : Set :=
| Int (z : Z)
| Flt (x : float)
| Str (s : string).

(** A data frame by columns, in column order; [read_csv] makes the
    column names distinct and the columns equally long. *)
Definition Frame := list (string * list cell).

Definition columns (df : Frame) : list string := map fst df.

(** [len(df)] *)
Definition len (df : Frame) : nat :=
  match df with
  | [] => 0
  | (_, c) :: _ => List.length c
  end.

(** [df[col] = values]: the column is replaced where it stands, or added
    as the last one. *)
Fixpoint set_item (df : Frame) (col : string) (values : list cell) : Frame :=
  match df with
  | [] => [(col, values)]
  | (name, c) :: df' =>
      if String.eqb name col then (name, values) :: df'
      else (name, c) :: set_item df' col values
  end.

Definition get_item (df : Frame) (col : string) : option (list cell) :=
  option_map snd (find (fun nc => String.eqb (fst nc) col) df).

(** [pd.concat([a, b])] of two frames with the same columns. *)
Definition concat (a b : Frame) : Frame :=
  map (fun nc =>
         (fst nc,
          (snd nc ++ match get_item b (fst nc) with
                     | Some c => c
                     | None => []
                     end)%list)) a.

(** The row at position [i]: its cells in column order. *)
Definition row (cols : list (list cell)) (i : nat) : list cell :=
  map (fun c => nth i c (Str "")) cols.

Definition rows (cols : list (list cell)) (n : nat) : list (list cell) :=
  map (row cols) (seq 0 n).

(** The record at position [i]: its cells by column name. *)
Definition record (df : Frame) (i : nat) : list (string * cell) :=
  map (fun nc => (fst nc, nth i (snd nc) (Str ""))) df.

End Table.

(* ================================================================== *)
(** * Spatial splitter *)

Module Spatial.

Import Table.
Local Open Scope nat_scope.

Definition is_coord (nc : string * list cell) : bool :=
  String.eqb (fst nc) "lon" || String.eqb (fst nc) "lat".

(** [arr[index]] with an array of positions. *)
Definition take (index : list nat) (arr : list cell) : res (list cell) :=
  mapM (fun i => of_option IndexError (nth_error arr i)) index.

(** [verde.train_test_split(coordinates, data, spacing=.., test_size=..)].
    Its [BlockShuffleSplit] draws the positions of the train and of the
    test points, [split] here; every coordinate and data array is then
    taken at those positions: [(coordinates, data)] for train and for
    test (the weights, [None], are left out).  The call needs two
    coordinates. *)
Definition spatial_tts (coordinates data : list (list cell)) (split : list nat * list nat)
  : res ((list (list cell) * list (list cell)) * (list (list cell) * list (list cell))) :=
  if List.length coordinates <? 2 then Raise Unmodelled
  else
    c_train <- mapM (take (fst split)) coordinates ;;
    d_train <- mapM (take (fst split)) data ;;
    c_val <- mapM (take (snd split)) coordinates ;;
    d_val <- mapM (take (snd split)) data ;;
    Ok ((c_train, d_train), (c_val, d_val)).

(** [for train_data, val_data, col in zip(..): df_train[col] = train_data; ..] *)
Fixpoint fill (df_train df_val : Frame) (train_data val_data : list (list cell))
    (cols : list string) : Frame * Frame :=
  match train_data, val_data, cols with
  | t :: train_data', v :: val_data', col :: cols' =>
      fill (set_item df_train col t) (set_item df_val col v) train_data' val_data' cols'
  | _, _, _ => (df_train, df_val)
  end.

Record output : Set := mkOutput { df_train : Frame; df_val : Frame; df_train_val : Frame }.

(** [split_obs_spatially], from the frame read from the csv file to the
    three frames written. *)
Definition split_obs_spatially (df : Frame) (split : list nat * list nat) : res output :=
  let coords := filter is_coord df in
  let data := filter (fun nc => negb (is_coord nc)) df in
  '(train_split, val_split) <- spatial_tts (map snd coords) (map snd data) split ;;
  lon_train <- of_option IndexError (nth_error (fst train_split) 0) ;;
  lat_train <- of_option IndexError (nth_error (fst train_split) 1) ;;
  lon_val <- of_option IndexError (nth_error (fst val_split) 0) ;;
  lat_val <- of_option IndexError (nth_error (fst val_split) 1) ;;
  let df_train := [("lon", lon_train); ("lat", lat_train)] in
  let df_val := [("lon", lon_val); ("lat", lat_val)] in
  let df_train := set_item df_train "subset" (repeat (Str "train") (len df_train)) in
  let df_val := set_item df_val "subset" (repeat (Str "val") (len df_val)) in
  let '(df_train, df_val) :=
    fill df_train df_val (snd train_split) (snd val_split) (map fst data) in
  let df_train_val := concat df_train df_val in
  Ok (mkOutput df_train df_val df_train_val).

(** ** Vocabulary of the specification *)

(** The cells of a frame without the split tag. *)
Definition untagged (df : Frame) : Frame :=
  filter (fun nc => negb (String.eqb (fst nc) "subset")) df.

(** The cells of the input with the coordinates first, as the output
    frames order them. *)
Definition coords_first (df : Frame) : Frame :=
  (filter is_coord df ++ filter (fun nc => negb (is_coord nc)) df)%list.

Definition well_formed (df : Frame) (n : nat) : Prop :=
  NoDup (columns df) /\ Forall (fun nc => List.length (snd nc) = n) df.

(** The positions drawn for train and for test are those of the input,
    each once. *)
Definition partition (split : list nat * list nat) (n : nat) : Prop :=
  Permutation (fst split ++ snd split) (seq 0 n).

(** ** Vocabulary of the proofs *)

(** [arr[index]] when every position is in range. *)
Definition gather (index : list nat) (arr : list cell) : list cell :=
  map (fun i => nth i arr (Str "")) index.

Definition coords_of (df : Frame) : Frame := filter is_coord df.
Definition data_of (df : Frame) : Frame := filter (fun nc => negb (is_coord nc)) df.

(** The frame that the code builds for one side of the split. *)
Definition side (df : Frame) (tag : string) (index : list nat) (a1 a2 : list cell) : Frame :=
  ([("lon", gather index a1); ("lat", gather index a2);
    ("subset", repeat (Str tag) (List.length index))]
   ++ combine (map fst (data_of df)) (map (gather index) (map snd (data_of df))))%list.

(** Two observations, the latitude before the longitude. *)
Definition lat_first : Frame :=
  [("lat", [Flt 43.5; Flt 48.5]); ("lon", [Flt 3.5; Flt 2.5]);
   ("speciesId", [Int 17; Int 5])].

(** The same observations, the longitude before the latitude. *)
Definition lon_first : Frame :=
  [("speciesId", [Int 17; Int 5]); ("lon", [Flt 3.5; Flt 2.5]);
   ("lat", [Flt 43.5; Flt 48.5])].

(** An input with a column named [subset]. *)
Definition with_subset : Frame :=
  [("lon", [Flt 3.5; Flt 2.5]); ("lat", [Flt 43.5; Flt 48.5]);
   ("subset", [Str "north"; Str "south"])].

End Spatial.

(* ================================================================== *)
(** * Frequency-stratified splitter *)

Module Frequency.

Import Table Numeric.
Local Open Scope Z_scope.

(** A line of the csv file: its [speciesId] and its other cells. *)
Definition Obs : Set := (Z * list cell)%type.

(** A row of [pa_train]: its index label, and the added [subset] tag. *)
Record Row : Set := mkRow { index : nat; speciesId : Z; subset : string; others : list cell }.

(** [pd.read_csv]: the lines under a [RangeIndex]. *)
Definition read_csv (lines : list Obs) : list (nat * Obs) :=
  combine (seq 0 (List.length lines)) lines.

(** [pa_train['subset'] = ['train'] * len(pa_train)] *)
Definition tag (s : string) (df : list (nat * Obs)) : list Row :=
  map (fun io => mkRow (fst io) (fst (snd io)) s (snd (snd io))) df.

Definition retag (s : string) (df : list Row) : list Row :=
  map (fun r => mkRow (index r) (speciesId r) s (others r)) df.

(** ** numpy *)

Fixpoint insert_sorted {A} (leb : A -> A -> bool) (x : A) (l : list A) : list A :=
  match l with
  | [] => [x]
  | y :: l' => if leb x y then x :: l else y :: insert_sorted leb x l'
  end.

Definition sort {A} (leb : A -> A -> bool) (l : list A) : list A :=
  fold_right (insert_sorted leb) [] l.

(** [np.unique(a, return_counts=True)]: the sorted distinct values, each
    with its number of occurrences. *)
Definition np_unique (a : list Z) : list (Z * Z) :=
  map (fun v => (v, Z.of_nat (count_occ Z.eq_dec a v)))
      (sort Z.leb (nodup Z.eq_dec a)).

(** [uniques[0][args_sorted][::-1], uniques[1][args_sorted][::-1]] with
    [args_sorted = np.argsort(uniques[1])]: by decreasing count.  (The
    order numpy leaves among equal counts is not documented; here they
    come by decreasing value.) *)
Definition sorted_desc (u : list (Z * Z)) : list (Z * Z) :=
  rev (sort (fun a b => snd a <=? snd b) u).

(** [n_cls_val[1][i] = round(v * val_ratio)] *)
Definition n_val (val_ratio : float) (v : Z) : res Z :=
  n <- py_round (PrimFloat.mul (float_of_int v) val_ratio) ;;
  to_int64 n.

(** [np.sum(n[n < bound])] *)
Definition sum_below (bound : float) (n : list Z) : Z :=
  wrap64 (fold_right Z.add 0
            (filter (fun k => PrimFloat.ltb (float_of_int k) bound) n)).

(** ** pandas *)

Definition remove_at {A} (k : nat) (l : list A) : list A :=
  (firstn k l ++ skipn (S k) l)%list.

(** Drawing [n] rows without replacement; [rng] is the stream of draws of
    the random generator. *)
Fixpoint choose {A} (rng : list nat) (pool : list A) (n : nat) : list A * list nat :=
  match n with
  | O => ([], rng)
  | S n' =>
      let k := (hd 0 rng mod List.length pool)%nat in
      match nth_error pool k with
      | None => ([], rng)
      | Some x =>
          let (rest, rng') := choose (tl rng) (remove_at k pool) n' in
          (x :: rest, rng')
      end
  end.

(** [df.sample(n=n)] *)
Definition sample (rng : list nat) (df : list Row) (n : Z) : res (list Row * list nat) :=
  if Z.of_nat (List.length df) <? n then Raise ValueError
  else Ok (choose rng df (Z.to_nat n)).

(** [df.drop(labels)] *)
Definition drop (df : list Row) (labels : list nat) : res (list Row) :=
  if forallb (fun l => existsb (Nat.eqb l) (map index df)) labels
  then Ok (filter (fun r => negb (existsb (Nat.eqb (index r)) labels)) df)
  else Raise KeyError.

(** ** The splitter *)

(** [for sid, n_sid in zip(..): if n_sid >= 1: ..] *)
Fixpoint val_loop (rng : list nat) (pa_train : list Row) (n_cls_val : list (Z * Z))
    (pa_val : list Row) : res (list Row) :=
  match n_cls_val with
  | [] => Ok pa_val
  | (sid, n_sid) :: rest =>
      if 1 <=? n_sid then
        let df_slice := filter (fun r => speciesId r =? sid) pa_train in
        '(s, rng') <- sample rng df_slice n_sid ;;
        val_loop rng' pa_train rest (pa_val ++ s)
      else val_loop rng pa_train rest pa_val
  end.

Record output : Set := mkOutput {
  train : list Row;            (* [{input}_without_val-{ratio}%.csv] *)
  val : list Row;              (* [{output}-{ratio}%.csv] *)
  train_val : list Row;        (* [{input}_val-{ratio}%.csv] *)
  indivisible_sid_n_rows : Z   (* the count in the closing message *)
}.

(** [split_obs_per_species_frequency], from the lines of the csv file to
    the three frames written and the count printed. *)
Definition split_obs_per_species_frequency
    (lines : list Obs) (val_ratio : float) (rng : list nat) : res output :=
  let pa_train := tag "train" (read_csv lines) in
  let pa_train_uniques := np_unique (map speciesId pa_train) in
  let pa_train_uniques_sorted_desc := sorted_desc pa_train_uniques in
  n_cls_val <- mapM (fun sv => n <- n_val val_ratio (snd sv) ;; Ok (fst sv, n))
                    pa_train_uniques_sorted_desc ;;
  bound <- py_inverse val_ratio ;;
  let indivisible_sid_n_rows := sum_below bound (map snd n_cls_val) in
  pa_val <- val_loop rng pa_train n_cls_val [] ;;
  let pa_val := retag "val" pa_val in
  pa_train <- drop pa_train (map index pa_val) ;;
  let pa_train_val := (pa_train ++ pa_val)%list in
  Ok (mkOutput pa_train pa_val pa_train_val indivisible_sid_n_rows).

(** ** Vocabulary of the specification *)

(** The number of rows of class [sid]. *)
Definition count (sid : Z) (df : list Row) : nat :=
  List.length (filter (fun r => speciesId r =? sid) df).

Definition occurrences (sid : Z) (lines : list Obs) : nat :=
  count_occ Z.eq_dec (map fst lines) sid.

(** The line of the csv file that a row carries. *)
Definition line_of (r : Row) : nat * Obs := (index r, (speciesId r, others r)).

(** [n] lines of class [sid]. *)
Definition one_class (sid : Z) (n : nat) : list Obs := repeat (sid, []) n.

(** [0.1] as a float. *)
Definition one_tenth : float := 0x1.999999999999ap-4%float.

(** ** Vocabulary of the proofs *)

Local Open Scope nat_scope.

(** The classes in the order of the loop: each class of the input once,
    with its number of occurrences. *)
Definition classes (a : list Z) : list (Z * Z) := sorted_desc (np_unique a).

(** The rows of class [sid] that the loop puts in the validation frame. *)
Fixpoint taken (sid : Z) (n_cls_val : list (Z * Z)) : nat :=
  match n_cls_val with
  | [] => 0
  | (s, n) :: rest =>
      (if (s =? sid)%Z && (1 <=? n)%Z then Z.to_nat n else 0) + taken sid rest
  end.

(** [pa_train] as read and tagged. *)
Definition tagged (lines : list Obs) : list Row := tag "train" (read_csv lines).

(** Thirty lines: twenty-five of class 7, five of class 3. *)
Definition thirty_lines : list Obs :=
  (one_class 7 25 ++ one_class 3 5)%list.

End Frequency.

(* ================================================================== *)
(** * The path of the csv file *)

Module Paths.
Import Files.

(** [s.endswith(suffix)] *)
Definition endswith (s suffix : string) : bool :=
  has_suffix (list_ascii_of_string suffix) (list_ascii_of_string s).

(** [s[:-k]], for a positive [k]: empty when [s] has at most [k]
    characters. *)
Definition drop_last (k : nat) (s : string) : string :=
  let l := list_ascii_of_string s in
  string_of_list_ascii (firstn (List.length l - k) l).

(** [input_path[:-4] if input_path.endswith(".csv") else input_path] *)
Definition input_name (input_path : string) : string :=
  if endswith input_path ".csv" then drop_last 4 input_path else input_path.

(** The file that both splitters read: [f'{input_name}.csv']. *)
Definition csv_path (input_path : string) : string :=
  input_name input_path ++ ".csv".

End Paths.

(* ================================================================== *)
(** * Properties: geometry predicates *)

Module GeometryFacts.
Import Geometry.
Local Open Scope Q_scope.

Lemma le_iff a b : le a b = true <-> a <= b.
Proof. apply Qle_bool_iff. Qed.

Lemma ge_iff a b : ge a b = true <-> b <= a.
Proof. apply Qle_bool_iff. Qed.

Lemma lt_iff a b : lt a b = true <-> a < b.
Proof.
  unfold lt. rewrite negb_true_iff, <- not_true_iff_false, Qle_bool_iff.
  split; [apply Qnot_le_lt | apply Qlt_not_le].
Qed.

Ltac to_prop :=
  repeat (rewrite ?andb_true_iff, ?le_iff, ?ge_iff, ?lt_iff).

(** The envelope of the polygon of a proper box is the box. *)
Lemma envelope b :
  proper b ->
  let p := polygon_of_bbox b in
  minx p == b0 b /\ maxx p == b2 b /\ miny p == b1 b /\ maxy p == b3 b.
Proof.
  intros [Hx Hy]. unfold minx, maxx, miny, maxy, min4, max4; simpl.
  repeat split.
  - rewrite !Q.min_id. apply Q.min_l, Qlt_le_weak, Hx.
  - rewrite !Q.max_id. apply Q.max_r, Qlt_le_weak, Hx.
  - rewrite (Q.min_l (b1 b) (b3 b)), (Q.min_r (b3 b) (b1 b))
      by apply Qlt_le_weak, Hy.
    apply Q.min_id.
  - rewrite (Q.max_r (b1 b) (b3 b)), (Q.max_l (b3 b) (b1 b))
      by apply Qlt_le_weak, Hy.
    apply Q.max_id.
Qed.

Lemma proper_valid b : proper b -> is_valid (polygon_of_bbox b) = true.
Proof.
  intros H. destruct (envelope H) as (E1 & E2 & E3 & E4). destruct H.
  unfold is_valid. to_prop. rewrite E1, E2, E3, E4. split; assumption.
Qed.

Lemma manual_point_iff p b :
  is_point_in_bbox p b "manual" = Ok true <-> inside p b.
Proof.
  unfold is_point_in_bbox, inside; simpl.
  split.
  - intros H. injection H as H. revert H. to_prop. tauto.
  - intros H. f_equal. to_prop. tauto.
Qed.

Lemma manual_bbox_iff a b :
  is_bbox_contained a b "manual" = Ok true <-> Forall (fun c => inside c b) (corners a).
Proof.
  unfold is_bbox_contained, corners, inside; simpl.
  repeat rewrite Forall_cons_iff. simpl.
  split.
  - intros H. injection H as H. revert H. to_prop. intuition auto using Forall_nil.
  - intros H. f_equal. to_prop. tauto.
Qed.

(** The envelope of the polygon of any box: its bounds, in order. *)
Lemma envelope_any b :
  let p := polygon_of_bbox b in
  minx p == Qmin (b0 b) (b2 b) /\ maxx p == Qmax (b0 b) (b2 b)
  /\ miny p == Qmin (b1 b) (b3 b) /\ maxy p == Qmax (b1 b) (b3 b).
Proof.
  unfold minx, maxx, miny, maxy, min4, max4; simpl. repeat split.
  - rewrite !Q.min_id. reflexivity.
  - rewrite !Q.max_id. reflexivity.
  - rewrite (Q.min_comm (b3 b) (b1 b)). apply Q.min_id.
  - rewrite (Q.max_comm (b3 b) (b1 b)). apply Q.max_id.
Qed.

Lemma min_lt_max x y : ~ x == y -> Qmin x y < Qmax x y.
Proof.
  intros H.
  destruct (Q.min_spec x y) as [[Hlt E] | [Hle E]]; rewrite E;
    destruct (Q.max_spec x y) as [[Hlt' E'] | [Hle' E']]; rewrite E'; lra.
Qed.

Lemma nondegenerate_valid b : nondegenerate b -> is_valid (polygon_of_bbox b) = true.
Proof.
  intros [Hx Hy]. destruct (envelope_any b) as (E1 & E2 & E3 & E4).
  unfold is_valid. to_prop. rewrite E1, E2, E3, E4.
  split; apply min_lt_max; assumption.
Qed.

Lemma min_max_bounds x y lo hi :
  (lo <= Qmin x y /\ Qmax x y <= hi) <-> (lo <= x /\ x <= hi /\ lo <= y /\ y <= hi).
Proof.
  destruct (Q.min_spec x y) as [[Hlt E] | [Hle E]]; rewrite E;
    destruct (Q.max_spec x y) as [[Hlt' E'] | [Hle' E']]; rewrite E'; lra.
Qed.

(** The two methods on a first box given either way round. *)
Lemma shapely_manual_agree_any a b :
  nondegenerate a -> proper b ->
  is_bbox_contained a b "shapely" = is_bbox_contained a b "manual".
Proof.
  intros Ha Hb. unfold is_bbox_contained; simpl.
  unfold contains_polygon. rewrite (nondegenerate_valid Ha), (proper_valid Hb). simpl.
  f_equal. apply eq_true_iff_eq.
  destruct (envelope_any a) as (A1 & A2 & A3 & A4).
  destruct (envelope Hb) as (B1 & B2 & B3 & B4).
  to_prop. rewrite A1, A2, A3, A4, B1, B2, B3, B4.
  pose proof (min_max_bounds (b0 a) (b2 a) (b0 b) (b2 b)) as Hx.
  pose proof (min_max_bounds (b1 a) (b3 a) (b1 b) (b3 b)) as Hy.
  tauto.
Qed.

Lemma shapely_boundary_false p b :
  proper b -> on_boundary p b -> is_point_in_bbox p b "shapely" = Ok false.
Proof.
  intros Hb [_ Ht]. unfold is_point_in_bbox; simpl. unfold contains_point.
  rewrite (proper_valid Hb). f_equal. apply not_true_iff_false.
  destruct (envelope Hb) as (E1 & E2 & E3 & E4). to_prop.
  rewrite E1, E2, E3, E4. unfold coord in *. intuition lra.
Qed.

Lemma manual_boundary_true p b :
  on_boundary p b -> is_point_in_bbox p b "manual" = Ok true.
Proof. intros [H _]. apply manual_point_iff, H. Qed.

End GeometryFacts.

Module GeometryClaims.
Import Geometry GeometryFacts.
Local Open Scope Q_scope.

Lemma edge_point_on_boundary : on_boundary edge_point unit_box.
Proof.
  unfold on_boundary, inside, edge_point, unit_box; simpl.
  repeat split; try (left; reflexivity); unfold Qle; simpl; lia.
Qed.

Lemma unit_box_proper : proper unit_box.
Proof. split; reflexivity. Qed.

Lemma inner_box_proper : proper inner_box.
Proof. split; reflexivity. Qed.

(** C4. At the point (0, 1), on the left edge of the box [0, 0, 2, 2],
    [is_point_in_bbox] under its default method answers false, where the
    specification and the 'manual' method answer true. *)
Theorem is_point_in_bbox_default_boundary :
  on_boundary edge_point unit_box /\
  is_point_in_bbox edge_point unit_box default_method = Ok false /\
  is_point_in_bbox edge_point unit_box "manual" = Ok true.
Proof.
  split; [exact edge_point_on_boundary | split].
  - apply shapely_boundary_false;
      [exact unit_box_proper | exact edge_point_on_boundary].
  - apply manual_boundary_true, edge_point_on_boundary.
Qed.

(** C5, as amended.  Under the method 'manual', [is_bbox_contained]
    returns a result for all boxes, true exactly when every corner of the
    first box lies within the bounds of the second, bounds included; the
    method 'shapely' returns the same result for every first box of
    non-zero width and height and every second box with its bounds in
    order and of positive width and height. *)
Theorem is_bbox_contained_corners (a b : BBox) :
  (exists r, is_bbox_contained a b "manual" = Ok r)
  /\ (is_bbox_contained a b "manual" = Ok true <->
      Forall (fun c => inside c b) (corners a))
  /\ (nondegenerate a -> proper b ->
      is_bbox_contained a b "shapely" = is_bbox_contained a b "manual").
Proof.
  split; [| split].
  - eexists. reflexivity.
  - apply manual_bbox_iff.
  - intros Ha Hb. apply shapely_manual_agree_any; assumption.
Qed.

Lemma is_bbox_contained_corners_witness :
  is_bbox_contained inner_box unit_box default_method
  = is_bbox_contained inner_box unit_box "manual".
Proof.
  apply (proj2 (proj2 (is_bbox_contained_corners inner_box unit_box))).
  - split; intros H; discriminate H.
  - split; reflexivity.
Defined.

(** C5 as stated fails: the box [2, 0, 0, 2], its horizontal bounds the
    wrong way round, holds no corner of [1/2, 1/2, 1, 1] within its
    bounds, and 'manual' answers false; its polygon is the square from
    (0, 0) to (2, 2), and 'shapely' answers true. *)
Lemma disordered_box_differs :
  is_bbox_contained small_box disordered_box "manual" = Ok false
  /\ is_bbox_contained small_box disordered_box "shapely" = Ok true
  /\ ~ Forall (fun c => inside c disordered_box) (corners small_box).
Proof.
  repeat split; try reflexivity.
  intros H. apply manual_bbox_iff in H. discriminate H.
Qed.

End GeometryClaims.

(* ================================================================== *)
(** * Properties: one-hot encoder *)

Module OneHotClaims.
Import OneHot.

Lemma set_mask_zeros (f : Z -> bool) (v : list Z) :
  set_mask (zeros (List.length v)) (map f v) 1%Q = map (fun a => hot (f a)) v.
Proof.
  unfold zeros. induction v as [| a v IH]; simpl; [reflexivity |].
  rewrite IH. destruct (f a); reflexivity.
Qed.

Lemma to_one_hot_encoding_map p vocab :
  to_one_hot_encoding p vocab
  = map (fun a => hot (existsb (Z.eqb a) (as_list p))) vocab.
Proof. unfold to_one_hot_encoding, in1d. apply set_mask_zeros. Qed.

Lemma existsb_eqb_in (a : Z) (l : list Z) :
  existsb (Z.eqb a) l = if in_dec Z.eq_dec a l then true else false.
Proof.
  destruct (in_dec Z.eq_dec a l) as [H | H].
  - apply existsb_exists. exists a. split; [exact H | apply Z.eqb_refl].
  - apply not_true_iff_false. intros E. apply existsb_exists in E.
    destruct E as (x & Hx & E). apply Z.eqb_eq in E. subst x. contradiction.
Qed.

Lemma index_nth_error vocab l k :
  index vocab l = Some k -> nth_error vocab k = Some l.
Proof.
  revert k. induction vocab as [| y vocab IH]; simpl; intros k H; [discriminate |].
  destruct (Z.eqb_spec y l) as [-> | _].
  - injection H as <-. reflexivity.
  - destruct (index vocab l) as [k' |]; [| discriminate].
    injection H as <-. simpl. apply IH. reflexivity.
Qed.

Lemma index_in vocab l : In l vocab -> exists k, index vocab l = Some k.
Proof.
  induction vocab as [| y vocab IH]; simpl; [tauto |].
  intros H. destruct (Z.eqb_spec y l) as [-> | Hn]; [eexists; reflexivity |].
  destruct H as [H | H]; [contradiction |].
  destruct (IH H) as [k ->]. eexists; reflexivity.
Qed.

(** C6. The one-hot vector is as long as the vocabulary; its entry [i]
    is 1.0 when [vocabulary[i]] is among the predicted labels and 0.0
    otherwise; and for one label of a duplicate-free vocabulary the only
    1.0 stands at the label's index. *)
Theorem to_one_hot_encoding_spec (p : labels) (vocab : list Z) :
  List.length (to_one_hot_encoding p vocab) = List.length vocab /\
  (forall i v, nth_error vocab i = Some v ->
     nth_error (to_one_hot_encoding p vocab) i
     = Some (if in_dec Z.eq_dec v (as_list p) then 1%Q else 0%Q)) /\
  (forall l, NoDup vocab -> In l vocab ->
     exists k, index vocab l = Some k /\
       forall i, (i < List.length vocab)%nat ->
         nth_error (to_one_hot_encoding (Single l) vocab) i
         = Some (if Nat.eqb i k then 1%Q else 0%Q)).
Proof.
  repeat split.
  - rewrite to_one_hot_encoding_map. apply length_map.
  - intros i v Hv. rewrite to_one_hot_encoding_map, nth_error_map, Hv. simpl.
    rewrite existsb_eqb_in. destruct (in_dec Z.eq_dec v (as_list p)); reflexivity.
  - intros l Hnd Hin. destruct (index_in vocab l Hin) as [k Hk].
    exists k. split; [exact Hk |]. intros i Hi.
    apply index_nth_error in Hk.
    rewrite to_one_hot_encoding_map, nth_error_map.
    destruct (nth_error vocab i) as [v |] eqn:Hv;
      [| apply nth_error_None in Hv; lia].
    simpl. f_equal. rewrite orb_false_r.
    destruct (Nat.eqb_spec i k) as [-> | Hne].
    + rewrite Hk in Hv. injection Hv as <-. rewrite Z.eqb_refl. reflexivity.
    + destruct (Z.eqb_spec v l) as [-> | _]; [| reflexivity].
      exfalso. apply Hne.
      apply (proj1 (NoDup_nth_error vocab) Hnd i k Hi). congruence.
Qed.

Lemma to_one_hot_encoding_spec_witness :
  exists k, index [10; 20; 30]%Z 20%Z = Some k /\
    forall i, (i < 3)%nat ->
      nth_error (to_one_hot_encoding (Single 20%Z) [10; 20; 30]%Z) i
      = Some (if Nat.eqb i k then 1%Q else 0%Q).
Proof.
  apply (proj2 (proj2 (to_one_hot_encoding_spec (Single 20%Z) [10; 20; 30]%Z))).
  - repeat constructor; simpl; intuition discriminate.
  - simpl. tauto.
Defined.

End OneHotClaims.

(* ================================================================== *)
(** * Properties: recursive file discovery *)

Module RegexFacts.
Import Regex.
Local Open Scope nat_scope.

(** ** Parsing plain text *)

Lemma parse_plain_char c s top below :
  plain_char c = true ->
  parse (c :: s) top below = parse s (push (Chr c) top) below.
Proof.
  unfold plain_char. intros H. apply negb_true_iff in H.
  cbn in H. repeat (apply orb_false_iff in H; destruct H as [? H]).
  cbn [parse]. unfold is_unmodelled.
  repeat match goal with E : Ascii.eqb c _ = false |- _ => rewrite E; clear E end.
  reflexivity.
Qed.

Lemma parse_plain w s top below :
  plain_chars w ->
  parse (w ++ s) top below = parse s (push_all w top) below.
Proof.
  unfold plain_chars. revert top. induction w as [| c w IH]; intros top H.
  - destruct top; reflexivity.
  - cbn [forallb] in H. apply andb_true_iff in H. destruct H as [Hc Hw].
    rewrite <- app_comm_cons, parse_plain_char by exact Hc.
    rewrite IH by exact Hw. f_equal.
    unfold push_all, push, pieces. cbn [alts cur map rev].
    rewrite <- app_assoc. reflexivity.
Qed.

Lemma list_ascii_app (a b : string) :
  list_ascii_of_string (a ++ b) = (list_ascii_of_string a ++ list_ascii_of_string b)%list.
Proof. induction a as [| c a IH]; simpl; [reflexivity | rewrite IH; reflexivity]. Qed.

Lemma parse_bar s top below :
  parse ("|"%char :: s) top below = parse s (next_branch top) below.
Proof. reflexivity. Qed.

Lemma parse_joined exts s top below :
  Forall Files.plain exts ->
  parse (list_ascii_of_string (String.concat "|" exts) ++ s) top below
  = parse s (feed (chars exts) top) below.
Proof.
  intros H. revert top. induction H as [| e exts He Hexts IH]; intros top.
  - reflexivity.
  - destruct exts as [| e' exts'].
    + cbn [String.concat chars map feed]. apply parse_plain, He.
    + change (String.concat "|" (e :: e' :: exts'))
        with (e ++ "|" ++ String.concat "|" (e' :: exts')).
      rewrite !list_ascii_app, <- !app_assoc.
      rewrite parse_plain by exact He.
      change (list_ascii_of_string "|") with ["|"%char].
      cbn [app]. rewrite parse_bar, IH. reflexivity.
Qed.

Lemma compile_pattern suffix exts :
  Files.plain suffix -> Forall Files.plain exts ->
  compile (Files.pattern suffix (String.concat "|" exts))
  = Ok (template (list_ascii_of_string suffix) (chars exts)).
Proof.
  intros Hs He. unfold compile, Files.pattern.
  rewrite !list_ascii_app.
  change (list_ascii_of_string "^.*(") with ["^"; "."; "*"; "("]%char.
  change (list_ascii_of_string ")\.(") with [")"; "\"; "."; "("]%char.
  change (list_ascii_of_string ")$") with [")"; "$"]%char.
  cbn [app parse Ascii.eqb Bool.eqb cur alts push empty_frame is_unmodelled orb].
  rewrite parse_plain by exact Hs.
  cbn [app parse Ascii.eqb Bool.eqb cur alts push empty_frame is_unmodelled orb is_alnum].
  rewrite parse_joined by exact He.
  reflexivity.
Qed.

(** ** Matching plain text *)

Lemma seq_of_pieces w : seq_of (pieces w) = lit w.
Proof.
  unfold seq_of, pieces. induction w as [| c w IH]; [reflexivity |].
  cbn [map rev]. rewrite fold_left_app, IH. reflexivity.
Qed.

Lemma ends_cat r1 r2 s i j :
  In j (ends (Cat r1 r2) s i) <-> exists k, In k (ends r1 s i) /\ In j (ends r2 s k).
Proof. cbn [ends]. apply in_flat_map. Qed.

Lemma ends_chr c s i j :
  In j (ends (Chr c) s i) <-> nth_error s i = Some c /\ j = S i.
Proof.
  cbn [ends]. destruct (nth_error s i) as [d |]; [| cbn; split; [tauto | intros [? _]; discriminate]].
  destruct (Ascii.eqb_spec c d) as [-> | Hn]; cbn.
  - split; [intros [<- | []]; auto | intros [_ ->]; auto].
  - split; [tauto | intros [E _]; congruence].
Qed.

Lemma ends_lit w s i j :
  In j (ends (lit w) s i) <-> at_pos w s i /\ j = i + List.length w.
Proof.
  revert i. induction w as [| c w IH]; intros i.
  - cbn. split; [intros [<- | []]; split; [exact I | lia] | intros [_ ->]; left; lia].
  - cbn [lit fold_right]. fold (lit w). rewrite ends_cat. cbn [at_pos List.length].
    split.
    + intros (k & Hk & Hj). apply ends_chr in Hk. destruct Hk as [Hc ->].
      apply IH in Hj. destruct Hj as [Hw ->]. repeat split; auto; lia.
    + intros ((Hc & Hw) & ->). exists (S i). split.
      * apply ends_chr. auto.
      * apply IH. split; [exact Hw | lia].
Qed.

Lemma ends_close f s i j :
  In j (ends (close f) s i)
  <-> In j (ends (seq_of (cur f)) s i) \/ exists b, In b (alts f) /\ In j (ends b s i).
Proof.
  unfold close. generalize (seq_of (cur f)) as acc.
  induction (alts f) as [| b bs IH]; intros acc; cbn [fold_left].
  - split; [auto | intros [H | (b & [] & _)]; exact H].
  - rewrite IH. cbn [ends]. rewrite in_app_iff. split.
    + intros [[H | H] | (b' & Hb & H)].
      * right. exists b. split; [left; reflexivity | exact H].
      * left. exact H.
      * right. exists b'. split; [right; exact Hb | exact H].
    + intros [H | (b' & [<- | Hb] & H)].
      * left. right. exact H.
      * left. left. exact H.
      * right. exists b'. split; assumption.
Qed.

(** The group of the extensions matches one of them. *)
Lemma ends_feed exts f s i j :
  exts <> [] -> cur f = [] ->
  In j (ends (close (feed exts f)) s i)
  <-> (exists e, In e exts /\ at_pos e s i /\ j = i + List.length e)
      \/ exists b, In b (alts f) /\ In j (ends b s i).
Proof.
  revert f. induction exts as [| e exts IH]; intros f Hne Hcur; [congruence |].
  destruct exts as [| e' exts'].
  - cbn [feed]. rewrite ends_close. unfold push_all. cbn [cur alts].
    rewrite Hcur, app_nil_r, seq_of_pieces, ends_lit. split.
    + intros [H | H]; [left; exists e; split; [left; reflexivity | exact H] | right; exact H].
    + intros [(e0 & [<- | []] & H) | H]; [left; exact H | right; exact H].
  - change (feed (e :: e' :: exts') f)
      with (feed (e' :: exts') (next_branch (push_all e f))).
    rewrite IH by (try discriminate; reflexivity).
    unfold next_branch, push_all. cbn [cur alts].
    rewrite Hcur, app_nil_r, seq_of_pieces. split.
    + intros [(e0 & He0 & H) | (b & [<- | Hb] & H)].
      * left. exists e0. split; [right; exact He0 | exact H].
      * left. exists e. split; [left; reflexivity | apply ends_lit, H].
      * right. exists b. split; assumption.
    + intros [(e0 & [<- | He0] & H) | (b & Hb & H)].
      * right. exists (lit e). split; [left; reflexivity | apply ends_lit, H].
      * left. exists e0. split; assumption.
      * right. exists b. split; [right; exact Hb | exact H].
Qed.

Lemma newline_free_nth s i d :
  newline_free s -> nth_error s i = Some d -> Ascii.eqb d newline = false.
Proof.
  unfold newline_free. intros H Hd. apply not_true_iff_false. intros E.
  apply Ascii.eqb_eq in E. subst d.
  apply not_true_iff_false in H. apply H, existsb_exists.
  exists newline. split; [eapply nth_error_In, Hd | apply Ascii.eqb_refl].
Qed.

Lemma ends_any s i :
  newline_free s ->
  ends Any s i = if i <? List.length s then [S i] else [].
Proof.
  intros H. cbn [ends]. destruct (Nat.ltb_spec i (List.length s)) as [Hi | Hi].
  - destruct (nth_error s i) as [d |] eqn:Hd; [| apply nth_error_None in Hd; lia].
    rewrite (newline_free_nth _ H Hd). reflexivity.
  - apply nth_error_None in Hi. rewrite Hi. reflexivity.
Qed.

Lemma star_any s fuel i j :
  newline_free s ->
  In j (star_ends (ends Any s) fuel i)
  <-> i <= j /\ j <= i + fuel /\ (j <= List.length s \/ j = i).
Proof.
  intros H. revert i. induction fuel as [| fuel IH]; intros i; cbn [star_ends].
  - cbn. lia.
  - rewrite (ends_any _ H). cbn [In].
    destruct (Nat.ltb_spec i (List.length s)) as [Hi | Hi].
    + cbn [filter]. replace (i <? S i) with true by (symmetry; apply Nat.ltb_lt; lia).
      cbn [flat_map]. rewrite app_nil_r, IH. lia.
    + cbn. lia.
Qed.

Lemma ends_eol s i j :
  newline_free s ->
  In j (ends Eol s i) <-> j = i /\ i = List.length s.
Proof.
  intros H. cbn [ends].
  destruct (Nat.eqb_spec i (List.length s)) as [-> | Hi].
  - cbn. intuition auto.
  - destruct (Nat.eqb_spec (S i) (List.length s)) as [E | _].
    + destruct (nth_error s i) as [d |] eqn:Hd.
      * rewrite (newline_free_nth _ H Hd). cbn. tauto.
      * cbn. tauto.
    + cbn. tauto.
Qed.

Lemma at_pos_app a b s i :
  at_pos (a ++ b) s i <-> at_pos a s i /\ at_pos b s (i + List.length a).
Proof.
  revert i. induction a as [| c a IH]; intros i; cbn [app at_pos List.length].
  - rewrite Nat.add_0_r. tauto.
  - rewrite IH. replace (S i + List.length a) with (i + S (List.length a)) by lia. tauto.
Qed.

Lemma skipn_nth_error (s : list ascii) i c :
  nth_error s i = Some c -> skipn i s = c :: skipn (S i) s.
Proof.
  revert s. induction i as [| i IH]; intros [| d s] H; try discriminate.
  - injection H as ->. reflexivity.
  - cbn [nth_error] in H. change (skipn (S i) (d :: s)) with (skipn i s).
    rewrite (IH _ H). reflexivity.
Qed.

Lemma at_pos_skipn w s i :
  at_pos w s i -> skipn i s = (w ++ skipn (i + List.length w) s)%list.
Proof.
  revert i. induction w as [| c w IH]; intros i; cbn [at_pos List.length app].
  - rewrite Nat.add_0_r. reflexivity.
  - intros [Hc Hw]. rewrite (skipn_nth_error _ _ Hc), (IH _ Hw).
    replace (S i + List.length w) with (i + S (List.length w)) by lia. reflexivity.
Qed.

Lemma at_pos_end w s i :
  at_pos w s i -> i + List.length w = List.length s -> s = (firstn i s ++ w)%list.
Proof.
  intros H E. rewrite <- (firstn_skipn i s) at 1. f_equal.
  rewrite (at_pos_skipn _ _ _ H), E, skipn_all, app_nil_r. reflexivity.
Qed.

Lemma at_pos_here p w t : at_pos w (p ++ w ++ t) (List.length p).
Proof.
  revert p. induction w as [| c w IH]; intros p; cbn [at_pos]; [exact I |].
  split.
  - rewrite nth_error_app2, Nat.sub_diag by lia. reflexivity.
  - specialize (IH (p ++ [c])%list).
    rewrite <- app_assoc, length_app in IH. cbn in IH.
    rewrite Nat.add_1_r in IH. exact IH.
Qed.

Lemma matches_at_true r s i :
  matches_at r s i = true <-> exists j, In j (ends r s i).
Proof.
  unfold matches_at. destruct (ends r s i) as [| j l].
  - split; [discriminate | intros (j & [])].
  - split; [exists j; left; reflexivity | reflexivity].
Qed.

Lemma ends_bol s i j : In j (ends Bol s i) <-> i = 0 /\ j = 0.
Proof.
  cbn [ends]. destruct (Nat.eqb_spec i 0) as [-> | H]; cbn; intuition lia.
Qed.

Lemma ends_eps s i j : In j (ends Eps s i) <-> j = i.
Proof. cbn. intuition auto. Qed.

(** What the compiled pattern finds in a name with no newline. *)
Lemma template_matches suffix exts s :
  newline_free s -> exts <> [] ->
  existsb (matches_at (template suffix exts) s) (seq 0 (S (List.length s))) = true
  <-> exists p e, In e exts /\ s = (p ++ suffix ++ "."%char :: e)%list.
Proof.
  intros Hnl Hne. rewrite existsb_exists. unfold template. split.
  - intros (i & _ & H). apply matches_at_true in H. destruct H as (j & H).
    apply ends_cat in H. destruct H as (k0 & H0 & H).
    apply ends_bol in H0. destruct H0 as [-> ->].
    apply ends_cat in H. destruct H as (k & Hk & H).
    cbn [ends] in Hk. apply (star_any _ _ _ Hnl) in Hk.
    apply ends_cat in H. destruct H as (k1 & H1 & H).
    apply ends_close in H1. unfold push_all, empty_frame in H1. cbn [cur alts] in H1.
    rewrite app_nil_r, seq_of_pieces in H1.
    destruct H1 as [H1 | (b & [] & _)]. apply ends_lit in H1. destruct H1 as [Hs ->].
    apply ends_cat in H. destruct H as (k2 & H2 & H).
    apply ends_chr in H2. destruct H2 as [Hdot ->].
    apply ends_cat in H. destruct H as (k3 & H3 & H).
    apply ends_feed in H3; [| exact Hne | reflexivity].
    destruct H3 as [(e & He & Hpos & ->) | (b & [] & _)].
    apply ends_cat in H. destruct H as (k4 & H4 & H).
    apply (ends_eol _ _ Hnl) in H4. destruct H4 as [-> Hlen].
    exists (firstn k s), e. split; [exact He |].
    apply at_pos_end.
    + apply at_pos_app. split; [exact Hs |]. cbn [at_pos]. split; [exact Hdot |].
      exact Hpos.
    + rewrite length_app. cbn [List.length]. lia.
  - intros (p & e & He & ->). exists 0. split; [apply in_seq; lia |].
    apply matches_at_true.
    set (s := (p ++ suffix ++ "."%char :: e)%list) in *.
    assert (Hlen : List.length s = List.length p + List.length suffix + S (List.length e)).
    { unfold s. rewrite !length_app. cbn [List.length]. lia. }
    assert (Hpos : at_pos (suffix ++ "."%char :: e) s (List.length p)).
    { unfold s. pose proof (at_pos_here p (suffix ++ "."%char :: e) []) as H.
      rewrite app_nil_r in H. exact H. }
    apply at_pos_app in Hpos. destruct Hpos as [Hs [Hdot Hext]].
    exists (List.length s).
    apply ends_cat. exists 0. split; [apply ends_bol; auto |].
    apply ends_cat. exists (List.length p). split.
    { cbn [ends]. apply (star_any _ _ _ Hnl). lia. }
    apply ends_cat. exists (List.length p + List.length suffix). split.
    { apply ends_close. left. unfold push_all, empty_frame. cbn [cur alts].
      rewrite app_nil_r, seq_of_pieces. apply ends_lit. auto. }
    apply ends_cat. exists (S (List.length p + List.length suffix)). split.
    { apply ends_chr. auto. }
    apply ends_cat. exists (List.length s). split.
    { apply ends_feed; [exact Hne | reflexivity |]. left. exists e.
      repeat split; [exact He | exact Hext | lia]. }
    apply ends_cat. exists (List.length s). split.
    { apply (ends_eol _ _ Hnl). auto. }
    apply ends_eps. reflexivity.
Qed.

End RegexFacts.

Module FilesFacts.
Import Regex Files RegexFacts.
Local Open Scope nat_scope.

Local Abbreviation dot := "."%char.

Definition dot_free (e : list ascii) : Prop := existsb (Ascii.eqb dot) e = false.

Lemma split_ext_dot_free e : dot_free e -> split_ext e = None.
Proof.
  unfold dot_free. induction e as [| c e IH]; cbn [existsb split_ext]; [reflexivity |].
  intros H. apply orb_false_iff in H. destruct H as [Hc He].
  rewrite (IH He). rewrite Ascii.eqb_sym in Hc. rewrite Hc. reflexivity.
Qed.

Lemma split_ext_app a e : dot_free e -> split_ext (a ++ dot :: e) = Some (a, e).
Proof.
  intros He. induction a as [| c a IH]; cbn [app split_ext].
  - rewrite (split_ext_dot_free He). reflexivity.
  - rewrite IH. reflexivity.
Qed.

Lemma split_ext_some f stem e :
  split_ext f = Some (stem, e) -> f = (stem ++ dot :: e)%list /\ dot_free e.
Proof.
  revert stem. induction f as [| c f IH]; intros stem; cbn [split_ext]; [discriminate |].
  destruct (split_ext f) as [[st e'] |] eqn:E.
  - intros H. injection H as <- <-. destruct (IH st eq_refl) as [-> Hd].
    split; [reflexivity | exact Hd].
  - destruct (Ascii.eqb_spec c dot) as [-> | _]; [| discriminate].
    intros H. injection H as <- <-. split; [reflexivity |].
    clear IH. unfold dot_free. induction f as [| d f IH]; [reflexivity |].
    cbn [split_ext] in E. destruct (split_ext f) as [[? ?] |]; [discriminate |].
    cbn [existsb]. rewrite Ascii.eqb_sym.
    destruct (Ascii.eqb d dot); [discriminate |]. cbn. apply IH. reflexivity.
Qed.

Lemma plain_dot_free e : plain e -> dot_free (list_ascii_of_string e).
Proof.
  unfold plain, dot_free. induction (list_ascii_of_string e) as [| c l IH];
    cbn [forallb existsb]; [reflexivity |].
  intros H. apply andb_true_iff in H. destruct H as [Hc Hl].
  rewrite (IH Hl), orb_false_r.
  unfold plain_char in Hc. apply negb_true_iff in Hc. cbn in Hc.
  apply orb_false_iff in Hc. destruct Hc as [Hc _].
  rewrite Ascii.eqb_sym. exact Hc.
Qed.

Lemma list_eqb_eq a b : list_eqb a b = true <-> a = b.
Proof.
  unfold list_eqb. rewrite String.eqb_eq. split; [| intros ->; reflexivity].
  intros H. apply (f_equal list_ascii_of_string) in H.
  rewrite !list_ascii_of_string_of_list_ascii in H. exact H.
Qed.

Lemma has_suffix_iff w s : has_suffix w s = true <-> exists p, s = (p ++ w)%list.
Proof.
  unfold has_suffix. rewrite list_eqb_eq. split.
  - intros H. exists (firstn (List.length s - List.length w) s).
    transitivity (firstn (List.length s - List.length w) s
                  ++ skipn (List.length s - List.length w) s)%list;
      [symmetry; apply firstn_skipn | f_equal; exact H].
  - intros (p & ->). rewrite length_app, Nat.add_sub.
    rewrite skipn_app, skipn_all, Nat.sub_diag. reflexivity.
Qed.

(** The words of the specification, on the characters of a name. *)
Lemma selected_iff suffix exts f :
  Forall plain exts ->
  selected suffix exts f = true
  <-> exists p e, In e (chars exts)
        /\ list_ascii_of_string f
           = (p ++ list_ascii_of_string suffix ++ dot :: e)%list.
Proof.
  intros Hplain. unfold selected. split.
  - destruct (split_ext (list_ascii_of_string f)) as [[stem ext] |] eqn:E;
      [| discriminate].
    intros H. apply andb_true_iff in H. destruct H as [Hext Hstem].
    apply existsb_exists in Hext. destruct Hext as (e & He & Heq).
    apply list_eqb_eq in Heq. apply has_suffix_iff in Hstem.
    destruct Hstem as (p & ->). apply split_ext_some in E. destruct E as [E _].
    exists p, ext. split.
    + subst ext. unfold chars. apply in_map, He.
    + rewrite E, <- app_assoc. reflexivity.
  - intros (p & e & He & Hf). unfold chars in He. apply in_map_iff in He.
    destruct He as (e0 & <- & He0).
    assert (Hd : dot_free (list_ascii_of_string e0)).
    { apply plain_dot_free. rewrite Forall_forall in Hplain. apply Hplain, He0. }
    rewrite Hf, app_assoc, (split_ext_app _ Hd).
    apply andb_true_iff. split.
    + apply existsb_exists. exists e0. split; [exact He0 | apply list_eqb_eq; reflexivity].
    + apply has_suffix_iff. exists p. reflexivity.
Qed.

(** The regular expression of the search, on plain text, selects what the
    specification's words select. *)
Lemma search_selected suffix exts f :
  plain suffix -> Forall plain exts -> exts <> [] -> no_newline f ->
  Regex.search (pattern suffix (String.concat "|" exts)) f
  = Ok (selected suffix exts f).
Proof.
  intros Hs He Hne Hnl. unfold Regex.search.
  rewrite (compile_pattern Hs He). cbn [bind]. f_equal.
  apply eq_true_iff_eq.
  rewrite template_matches, (selected_iff _ _ He).
  - reflexivity.
  - exact Hnl.
  - unfold chars. destruct exts; [congruence | discriminate].
Qed.

Lemma mapM_strip_dot args :
  Forall (fun e => e <> "") args -> mapM strip_dot args = Ok (map undot args).
Proof.
  induction 1 as [| e args He _ IH]; cbn [mapM map]; [reflexivity |].
  rewrite IH. destruct e as [| c e]; [congruence | reflexivity].
Qed.

Lemma filterM_filter {A} (p : A -> res bool) (q : A -> bool) (l : list A) :
  Forall (fun a => p a = Ok (q a)) l -> filterM p l = Ok (filter q l).
Proof.
  induction 1 as [| a l Ha _ IH]; cbn [filterM filter]; [reflexivity |].
  rewrite Ha, IH. reflexivity.
Qed.

End FilesFacts.

Module FilesClaims.
Import Regex Files RegexFacts FilesFacts.



(** C7.  Over [a.csv], [b.txt] and [sub/c.csv], the extension [c.v] is no
    file's extension, and [a.csv] and [sub/c.csv] are returned for it:
    the extension is pasted into the pattern as it is, and its dot stands
    for any character, where the docstring and the specification select
    the files with one of the given extensions. *)
Theorem extension_read_as_pattern :
  get_files_path_recursively (example_fs "data") "data" ["c.v"] ""
  = Ok ["data/a.csv"; "data/sub/c.csv"]
  /\ selected "" ["c.v"] "a.csv" = false.
Proof. split; reflexivity. Qed.

(** C8, as amended.  A root that does not exist is not an error: with
    extensions that are not empty, the result is the empty list. *)
Theorem missing_root_finds_nothing
    (fs : filesystem) (path : string) (args : list string) (suffix : string) :
  fs path = None ->
  Forall (fun e => e <> "") args ->
  get_files_path_recursively fs path args suffix = Ok [].
Proof.
  intros Hroot Hargs. unfold get_files_path_recursively, os_walk.
  rewrite (mapM_strip_dot Hargs), Hroot. reflexivity.
Qed.

Lemma missing_root_finds_nothing_witness :
  get_files_path_recursively (example_fs "data") "nowhere" [".csv"; "txt"] "_v2"
  = Ok [].
Proof.
  apply missing_root_finds_nothing.
  - reflexivity.
  - repeat constructor; discriminate.
Defined.

(** C8 as stated fails: the search of a missing root returns. *)
Lemma missing_root_returns :
  os_walk (example_fs "data") "nowhere" = []
  /\ get_files_path_recursively (example_fs "data") "nowhere" ["csv"] "" = Ok [].
Proof. split; reflexivity. Qed.

Lemma mapM_strip_dot_middle pre x y post :
  strip_dot x = strip_dot y ->
  mapM strip_dot (pre ++ x :: post) = mapM strip_dot (pre ++ y :: post).
Proof.
  intros E. induction pre as [| e pre IH]; cbn [app mapM].
  - rewrite E. reflexivity.
  - rewrite IH. reflexivity.
Qed.

(** C10, as amended.  An extension that is not empty and does not itself
    start with a dot is searched the same with a dot put before it,
    whatever the other extensions given. *)
Theorem leading_dot_is_stripped
    (fs : filesystem) (path : string) (pre post : list string)
    (ext suffix : string) :
  ext <> "" ->
  (forall rest, ext <> String "." rest) ->
  get_files_path_recursively fs path (pre ++ String "." ext :: post) suffix
  = get_files_path_recursively fs path (pre ++ ext :: post) suffix.
Proof.
  intros Hne Hdot. unfold get_files_path_recursively.
  rewrite (mapM_strip_dot_middle pre (String "." ext) ext post); [reflexivity |].
  destruct ext as [| c rest]; [congruence |].
  cbn [strip_dot]. rewrite Ascii.eqb_refl.
  destruct (Ascii.eqb_spec c ".") as [-> | _]; [| reflexivity].
  exfalso. exact (Hdot rest eq_refl).
Qed.

Lemma leading_dot_is_stripped_witness :
  get_files_path_recursively (example_fs "data") "data" [".csv"] ""
  = get_files_path_recursively (example_fs "data") "data" ["csv"] "".
Proof.
  apply (leading_dot_is_stripped (example_fs "data") "data" [] [] (ext := "csv") "").
  - discriminate.
  - discriminate.
Defined.

(** C10 as stated fails at the empty extension: with the dot it is
    searched, without it the search raises. *)
Lemma empty_extension_differs :
  get_files_path_recursively (example_fs "data") "data" ["."] "" = Ok []
  /\ get_files_path_recursively (example_fs "data") "data" [""] "" = Raise IndexError.
Proof. split; reflexivity. Qed.

End FilesClaims.

(* ================================================================== *)
(** * Properties: the spatial splitter *)

Module ListFacts.
Local Open Scope nat_scope.

Lemma mapM_map {A B} (f : A -> res B) (g : A -> B) (l : list A) :
  Forall (fun a => f a = Ok (g a)) l -> mapM f l = Ok (map g l).
Proof.
  induction 1 as [| a l Ha _ IH]; cbn [mapM map]; [reflexivity |].
  rewrite Ha, IH. reflexivity.
Qed.

Lemma map_nth_seq {A} (l : list A) (d : A) :
  map (fun k => nth k l d) (seq 0 (List.length l)) = l.
Proof.
  induction l as [| a l IH]; [reflexivity |].
  cbn [List.length seq map nth]. f_equal.
  rewrite <- seq_shift, map_map. exact IH.
Qed.

Lemma map_snd_combine {A B} (l : list A) (l' : list B) :
  List.length l = List.length l' -> map snd (combine l l') = l'.
Proof.
  revert l'. induction l as [| a l IH]; intros [| b l'] H; try discriminate; [reflexivity |].
  cbn. f_equal. apply IH. cbn in H. lia.
Qed.

Lemma filter_all {A} (p : A -> bool) (l : list A) :
  Forall (fun a => p a = true) l -> filter p l = l.
Proof.
  induction 1 as [| a l Ha _ IH]; cbn; [reflexivity |]. rewrite Ha, IH. reflexivity.
Qed.

Lemma NoDup_map_filter {A B} (f : A -> B) (p : A -> bool) (l : list A) :
  NoDup (map f l) -> NoDup (map f (filter p l)).
Proof.
  induction l as [| a l IH]; cbn; [auto |].
  intros H. inversion H as [| ? ? Ha Hl]; subst.
  destruct (p a); [| auto]. cbn. constructor; [| auto].
  intros Hin. apply Ha. apply in_map_iff in Hin. destruct Hin as (x & <- & Hx).
  apply in_map. apply filter_In in Hx. tauto.
Qed.

Lemma map_fst_combine {A B} (l : list A) (l' : list B) :
  List.length l = List.length l' -> map fst (combine l l') = l.
Proof.
  revert l'. induction l as [| a l IH]; intros [| b l'] H; try discriminate; [reflexivity |].
  cbn. f_equal. apply IH. cbn in H. lia.
Qed.

End ListFacts.

Module SpatialFacts.
Import Table Spatial ListFacts.
Local Open Scope nat_scope.

Lemma take_gather index arr :
  Forall (fun i => i < List.length arr) index ->
  take index arr = Ok (gather index arr).
Proof.
  intros H. unfold take, gather. apply mapM_map.
  eapply Forall_impl; [| exact H]. cbn. intros i Hi.
  destruct (nth_error arr i) as [c |] eqn:E.
  - cbn. f_equal. symmetry. apply nth_error_nth, E.
  - apply nth_error_None in E. lia.
Qed.

Lemma takes_gather index (cols : list (list cell)) n :
  Forall (fun i => i < n) index ->
  Forall (fun c => List.length c = n) cols ->
  mapM (take index) cols = Ok (map (gather index) cols).
Proof.
  intros Hi Hc. apply mapM_map. eapply Forall_impl; [| exact Hc].
  cbn. intros c <-. apply take_gather, Hi.
Qed.

Lemma set_item_fresh (df : Frame) col v :
  ~ In col (columns df) -> set_item df col v = (df ++ [(col, v)])%list.
Proof.
  unfold columns. induction df as [| [name c] df IH]; cbn; intros H; [reflexivity |].
  destruct (String.eqb_spec name col) as [-> | _]; [tauto |].
  rewrite IH by tauto. reflexivity.
Qed.

Lemma fill_fresh cols : forall (dt dv : Frame) (t v : list (list cell)),
  NoDup cols ->
  (forall c, In c cols -> ~ In c (columns dt) /\ ~ In c (columns dv)) ->
  List.length t = List.length cols -> List.length v = List.length cols ->
  fill dt dv t v cols = ((dt ++ combine cols t)%list, (dv ++ combine cols v)%list).
Proof.
  induction cols as [| c cols IH]; intros dt dv t v Hnd Hfresh Ht Hv.
  - destruct t, v; try discriminate. cbn. rewrite !app_nil_r. reflexivity.
  - destruct t as [| a t], v as [| b v]; try discriminate.
    cbn [fill combine]. inversion Hnd as [| ? ? Hc Hnd']; subst.
    destruct (Hfresh c (or_introl eq_refl)) as [Hdt Hdv].
    rewrite !set_item_fresh by assumption.
    rewrite IH; [rewrite <- !app_assoc; reflexivity | exact Hnd' | | cbn in *; lia | cbn in *; lia].
    intros c' Hc'. unfold columns. rewrite !map_app, !in_app_iff. cbn.
    destruct (Hfresh c' (or_intror Hc')) as [H1 H2].
    unfold columns in H1, H2.
    assert (c <> c') by (intros ->; contradiction).
    tauto.
Qed.

Lemma row_gather index cols k :
  k < List.length index ->
  row (map (gather index) cols) k = row cols (nth k index 0).
Proof.
  intros Hk. unfold row. rewrite map_map. apply map_ext. intros c.
  unfold gather.
  rewrite (nth_indep _ (Str "") (nth 0 c (Str ""))) by (rewrite length_map; exact Hk).
  apply (map_nth (fun i => nth i c (Str ""))).
Qed.

(** The rows of the arrays taken at [index] are the rows at [index]. *)
Lemma rows_gather index cols :
  rows (map (gather index) cols) (List.length index) = map (row cols) index.
Proof.
  unfold rows. rewrite <- (map_nth_seq index 0) at 3. rewrite map_map.
  apply map_ext_in. intros k Hk. apply in_seq in Hk. apply row_gather. lia.
Qed.

Section Split.

Variables (df : Frame) (n : nat) (split : list nat * list nat).
Hypothesis Hwf : well_formed df n.
Hypothesis Hsubset : ~ In "subset" (columns df).
Hypothesis Hsplit : partition split n.

Lemma positions_in_range :
  Forall (fun i => i < n) (fst split) /\ Forall (fun i => i < n) (snd split).
Proof.
  assert (H : Forall (fun i => i < n) (fst split ++ snd split)).
  { apply Forall_forall. intros i Hi.
    apply (Permutation_in _ Hsplit), in_seq in Hi. lia. }
  apply Forall_app in H. exact H.
Qed.

Lemma columns_long (p : string * list cell -> bool) :
  Forall (fun c => List.length c = n) (map snd (filter p df)).
Proof.
  destruct Hwf as [_ H]. apply Forall_map, Forall_forall. intros nc Hnc.
  apply filter_In in Hnc. rewrite Forall_forall in H. apply H. tauto.
Qed.

Lemma coords_at_most_two : List.length (coords_of df) <= 2.
Proof.
  destruct Hwf as [Hnd _].
  assert (H : NoDup (map fst (coords_of df))) by (apply NoDup_map_filter, Hnd).
  rewrite <- (length_map fst).
  apply (NoDup_incl_length (l' := ["lon"; "lat"]) H).
  intros name Hin. apply in_map_iff in Hin. destruct Hin as (nc & <- & Hnc).
  apply filter_In in Hnc. destruct Hnc as [_ Hnc]. unfold is_coord in Hnc.
  apply orb_true_iff in Hnc. rewrite !String.eqb_eq in Hnc.
  destruct Hnc as [E | E]; rewrite E; cbn; auto.
Qed.

Lemma data_names_fresh name :
  In name (map fst (data_of df)) ->
  name <> "lon" /\ name <> "lat" /\ name <> "subset".
Proof.
  intros Hin. apply in_map_iff in Hin. destruct Hin as (nc & <- & Hnc).
  apply filter_In in Hnc. destruct Hnc as [Hdf Hnc]. unfold is_coord in Hnc.
  apply negb_true_iff, orb_false_iff in Hnc. rewrite !String.eqb_neq in Hnc.
  repeat split; try tauto.
  intros E. apply Hsubset. rewrite <- E. apply in_map, Hdf.
Qed.

Lemma split_obs_spatially_eval out :
  split_obs_spatially df split = Ok out ->
  exists n1 a1 n2 a2,
    coords_of df = [(n1, a1); (n2, a2)] /\
    df_train out = side df "train" (fst split) a1 a2 /\
    df_val out = side df "val" (snd split) a1 a2.
Proof.
  unfold split_obs_spatially, spatial_tts.
  destruct positions_in_range as [Htr Hte].
  rewrite !(takes_gather Htr (columns_long _)), !(takes_gather Hte (columns_long _)).
  fold (coords_of df) (data_of df).
  pose proof coords_at_most_two as Hmax.
  destruct (List.length (map snd (coords_of df)) <? 2) eqn:Hlen; [discriminate |].
  apply Nat.ltb_ge in Hlen. rewrite length_map in Hlen.
  cbn [bind fst snd].
  destruct (coords_of df) as [| [n1 a1] [| [n2 a2] [| ? ?]]];
    cbn in Hlen, Hmax; try lia.
  cbn [map snd nth_error of_option bind len set_item String.eqb Ascii.eqb Bool.eqb].
  rewrite (fill_fresh (cols := map fst (data_of df))).
  - intros H. injection H as <-. exists n1, a1, n2, a2. cbn [df_train df_val].
    unfold side, gather. rewrite !length_map. repeat split.
  - apply NoDup_map_filter. destruct Hwf as [Hnd _]. exact Hnd.
  - intros c Hc'. apply data_names_fresh in Hc'. cbn. intuition congruence.
  - rewrite !length_map. reflexivity.
  - rewrite !length_map. reflexivity.
Qed.

Lemma len_side tag index a1 a2 : len (side df tag index a1 a2) = List.length index.
Proof. unfold side, len, gather. cbn. apply length_map. Qed.

Lemma untagged_side tag index n1 a1 n2 a2 :
  coords_of df = [(n1, a1); (n2, a2)] ->
  map snd (untagged (side df tag index a1 a2))
  = map (gather index) (map snd (coords_first df)).
Proof.
  intros Hc. unfold coords_first. fold (coords_of df) (data_of df). rewrite Hc.
  unfold side, untagged. cbn [app filter fst String.eqb Ascii.eqb Bool.eqb negb map snd].
  f_equal. f_equal. rewrite filter_all.
  - apply map_snd_combine. rewrite !length_map. reflexivity.
  - apply Forall_forall. intros [name c] Hin. apply in_combine_l in Hin.
    apply data_names_fresh in Hin. cbn. apply negb_true_iff, String.eqb_neq. tauto.
Qed.

(** The rows of the two frames written are the rows of the input, each
    once: a row being its cells, the coordinates first. *)
Lemma spatial_rows_partition out :
  split_obs_spatially df split = Ok out ->
  Permutation
    (rows (map snd (untagged (df_train out))) (len (df_train out))
     ++ rows (map snd (untagged (df_val out))) (len (df_val out)))
    (rows (map snd (coords_first df)) n)
  /\ len (df_train out) + len (df_val out) = n.
Proof.
  intros H. destruct (split_obs_spatially_eval H) as (n1 & a1 & n2 & a2 & Hc & -> & ->).
  rewrite !len_side, !(untagged_side _ _ Hc), !rows_gather, <- map_app.
  split.
  - unfold rows. apply Permutation_map, Hsplit.
  - rewrite <- length_app, (Permutation_length Hsplit). apply length_seq.
Qed.

End Split.

End SpatialFacts.

(* ================================================================== *)
(** * Properties: the frequency-stratified splitter *)

Module FrequencyFacts.
Import Table Numeric Frequency ListFacts.
Local Open Scope nat_scope.

(** ** Sorting and counting *)

Lemma insert_sorted_perm {A} (leb : A -> A -> bool) x l :
  Permutation (insert_sorted leb x l) (x :: l).
Proof.
  induction l as [| y l IH]; cbn; [reflexivity |].
  destruct (leb x y); [reflexivity |].
  rewrite IH. apply perm_swap.
Qed.

Lemma sort_perm {A} (leb : A -> A -> bool) l : Permutation (sort leb l) l.
Proof.
  unfold sort. induction l as [| x l IH]; cbn; [reflexivity |].
  rewrite insert_sorted_perm, IH. reflexivity.
Qed.

Lemma classes_perm a :
  Permutation (classes a)
    (map (fun v => (v, Z.of_nat (count_occ Z.eq_dec a v))) (nodup Z.eq_dec a)).
Proof.
  unfold classes, sorted_desc, np_unique.
  rewrite <- Permutation_rev, sort_perm.
  apply Permutation_map, sort_perm.
Qed.

Lemma classes_keys a : Permutation (map fst (classes a)) (nodup Z.eq_dec a).
Proof.
  rewrite (Permutation_map fst (classes_perm a)), map_map. cbn [fst].
  rewrite map_id. reflexivity.
Qed.

Lemma classes_keys_nodup a : NoDup (map fst (classes a)).
Proof.
  eapply Permutation_NoDup; [symmetry; apply classes_keys | apply NoDup_nodup].
Qed.

Lemma classes_in a sid cnt :
  In (sid, cnt) (classes a) <-> In sid a /\ cnt = Z.of_nat (count_occ Z.eq_dec a sid).
Proof.
  split.
  - intros H. apply (Permutation_in _ (classes_perm a)), in_map_iff in H.
    destruct H as (v & E & Hv). injection E as -> <-.
    apply nodup_In in Hv. auto.
  - intros [H ->]. apply (Permutation_in _ (Permutation_sym (classes_perm a))).
    apply in_map_iff. exists sid. split; [reflexivity | apply nodup_In, H].
Qed.

Lemma count_count_occ sid (df : list Row) :
  count sid df = count_occ Z.eq_dec (map speciesId df) sid.
Proof.
  unfold count. induction df as [| r df IH]; cbn; [reflexivity |].
  destruct (Z.eqb_spec (speciesId r) sid) as [E | E];
    destruct (Z.eq_dec (speciesId r) sid); try contradiction; cbn; rewrite IH; reflexivity.
Qed.

Lemma count_app sid (a b : list Row) : count sid (a ++ b) = count sid a + count sid b.
Proof. unfold count. rewrite filter_app. apply length_app. Qed.

Lemma count_perm sid (a b : list Row) : Permutation a b -> count sid a = count sid b.
Proof.
  intros H. rewrite !count_count_occ.
  apply Permutation_count_occ. apply Permutation_map, H.
Qed.

(** ** Reading and tagging *)

Lemma map_index_tag s df : map index (tag s df) = map fst df.
Proof. unfold tag. rewrite map_map. reflexivity. Qed.

Lemma map_line_of_tag s df : map line_of (tag s df) = df.
Proof.
  unfold tag. rewrite map_map. rewrite <- (map_id df) at 2.
  apply map_ext. intros [i [sid o]]. reflexivity.
Qed.

Lemma map_line_of_retag s df : map line_of (retag s df) = map line_of df.
Proof. unfold retag. rewrite map_map. reflexivity. Qed.

Lemma map_index_retag s df : map index (retag s df) = map index df.
Proof. unfold retag. rewrite map_map. reflexivity. Qed.

Lemma map_species_retag s df : map speciesId (retag s df) = map speciesId df.
Proof. unfold retag. rewrite map_map. reflexivity. Qed.

Lemma map_species_tag s lines :
  map speciesId (tag s (read_csv lines)) = map fst lines.
Proof.
  unfold tag, read_csv. rewrite map_map. cbn [speciesId].
  rewrite <- (map_map snd fst), map_snd_combine by apply length_seq. reflexivity.
Qed.

Lemma map_index_read_csv s lines :
  map index (tag s (read_csv lines)) = seq 0 (List.length lines).
Proof.
  rewrite map_index_tag. unfold read_csv. apply map_fst_combine, length_seq.
Qed.

(** ** Sampling *)

Lemma remove_at_perm {A} k (pool : list A) x :
  nth_error pool k = Some x -> Permutation (x :: remove_at k pool) pool.
Proof.
  intros H. unfold remove_at.
  destruct (nth_error_split pool k H) as (l1 & l2 & -> & <-).
  rewrite firstn_app, firstn_all, Nat.sub_diag, app_nil_r.
  replace (skipn (S (List.length l1)) (l1 ++ x :: l2)) with l2.
  - apply Permutation_middle.
  - rewrite skipn_app, skipn_all2 by lia.
    replace (S (List.length l1) - List.length l1) with 1 by lia. reflexivity.
Qed.

Lemma choose_perm {A} n : forall rng (pool picked : list A) rng',
  choose rng pool n = (picked, rng') ->
  exists rest, Permutation (picked ++ rest) pool.
Proof.
  induction n as [| n IH]; intros rng pool picked rng'; cbn [choose].
  - intros H. injection H as <- _. exists pool. reflexivity.
  - destruct (nth_error pool _) as [x |] eqn:Hx.
    + destruct (choose (tl rng) _ n) as [rest0 rng0] eqn:Hc.
      intros H. injection H as <- _.
      destruct (IH _ _ _ _ Hc) as (rest & Hrest). exists rest.
      cbn. rewrite Hrest. apply remove_at_perm, Hx.
    + intros H. injection H as <- _. exists pool. reflexivity.
Qed.

Lemma choose_length {A} n : forall rng (pool : list A),
  n <= List.length pool -> List.length (fst (choose rng pool n)) = n.
Proof.
  induction n as [| n IH]; intros rng pool Hn; cbn [choose]; [reflexivity |].
  destruct (nth_error pool _) as [x |] eqn:Hx.
  - specialize (IH (tl rng) (remove_at (hd 0 rng mod List.length pool) pool)).
    destruct (choose (tl rng) _ n) as [rest0 rng0]. cbn [fst List.length] in *.
    f_equal. apply IH.
    pose proof (Permutation_length (remove_at_perm _ _ Hx)) as E. cbn in E. lia.
  - apply nth_error_None in Hx.
    pose proof (Nat.mod_upper_bound (hd 0 rng) (List.length pool)). lia.
Qed.

(** What a successful [sample] returns: [n] rows of the frame, each taken
    once. *)
Lemma sample_spec rng df n s rng' :
  sample rng df n = Ok (s, rng') ->
  (exists rest, Permutation (s ++ rest) df)
  /\ (List.length s = Z.to_nat n).
Proof.
  unfold sample. destruct (Z.ltb_spec (Z.of_nat (List.length df)) n) as [| Hn];
    [discriminate |].
  intros H. injection H as H. split.
  - eapply choose_perm, H.
  - replace s with (fst (choose rng df (Z.to_nat n))) by (rewrite H; reflexivity).
    apply choose_length. lia.
Qed.

(** ** The loop over the classes *)

Lemma count_all sid (df : list Row) :
  Forall (fun r => speciesId r = sid) df -> count sid df = List.length df.
Proof.
  intros H. unfold count. rewrite filter_all; [reflexivity |].
  eapply Forall_impl; [| exact H]. cbn. intros r ->. apply Z.eqb_refl.
Qed.

Lemma count_none sid (df : list Row) :
  Forall (fun r => speciesId r <> sid) df -> count sid df = 0.
Proof.
  intros H. unfold count. induction H as [| r df Hr _ IH]; cbn; [reflexivity |].
  destruct (Z.eqb_spec (speciesId r) sid); [contradiction | exact IH].
Qed.

Lemma sample_of_slice rng pa sid n s rng' :
  sample rng (filter (fun r => speciesId r =? sid)%Z pa) n = Ok (s, rng') ->
  incl s pa /\ Forall (fun r => speciesId r = sid) s.
Proof.
  intros H. apply sample_spec in H. destruct H as [(rest & Hp) _].
  assert (Hin : forall r, In r s -> In r (filter (fun r => speciesId r =? sid)%Z pa)).
  { intros r Hr. apply (Permutation_in _ Hp), in_or_app. left. exact Hr. }
  split.
  - intros r Hr. apply Hin, filter_In in Hr. tauto.
  - apply Forall_forall. intros r Hr. apply Hin, filter_In in Hr.
    apply Z.eqb_eq. tauto.
Qed.

Lemma val_loop_count pa sid n_cls_val : forall rng acc res,
  val_loop rng pa n_cls_val acc = Ok res ->
  count sid res = count sid acc + taken sid n_cls_val.
Proof.
  induction n_cls_val as [| [s n] rest IH]; intros rng acc res; cbn [val_loop taken].
  - intros H. injection H as <-. lia.
  - destruct (Z.leb_spec 1 n) as [Hn | Hn].
    + destruct (sample rng _ n) as [[smp rng'] | e] eqn:Hs; [| discriminate].
      cbn [bind]. intros H. apply IH in H. rewrite H, count_app.
      destruct (sample_of_slice _ _ _ _ Hs) as [_ Hsid].
      apply sample_spec in Hs. destruct Hs as [_ Hlen].
      destruct (Z.eqb_spec s sid) as [-> | Hne]; cbn [andb].
      * rewrite (count_all Hsid). lia.
      * rewrite (count_none (sid := sid) (df := smp)); [lia |].
        eapply Forall_impl; [| exact Hsid]. cbn. congruence.
    + intros H. apply IH in H. rewrite H, andb_false_r. lia.
Qed.

Lemma val_loop_incl pa n_cls_val : forall rng acc res,
  val_loop rng pa n_cls_val acc = Ok res ->
  incl acc pa -> incl res pa.
Proof.
  induction n_cls_val as [| [s n] rest IH]; intros rng acc res; cbn [val_loop].
  - intros H. injection H as <-. auto.
  - destruct (1 <=? n)%Z.
    + destruct (sample rng _ n) as [[smp rng'] | e] eqn:Hs; [| discriminate].
      cbn [bind]. intros H Hacc. apply (IH _ _ _ H).
      apply incl_app; [exact Hacc | apply (sample_of_slice _ _ _ _ Hs)].
    + apply IH.
Qed.

Lemma val_loop_nodup pa n_cls_val : forall rng acc res,
  val_loop rng pa n_cls_val acc = Ok res ->
  NoDup pa -> NoDup (map fst n_cls_val) ->
  NoDup acc ->
  Forall (fun r => ~ In (speciesId r) (map fst n_cls_val)) acc ->
  NoDup res.
Proof.
  induction n_cls_val as [| [s n] rest IH]; intros rng acc res; cbn [val_loop map fst].
  - intros H. injection H as <-. auto.
  - intros H Hpa Hkeys Hacc Hold. inversion Hkeys as [| ? ? Hs Hrest]; subst.
    assert (Hold' : Forall (fun r => ~ In (speciesId r) (map fst rest)) acc).
    { eapply Forall_impl; [| exact Hold]. cbn. tauto. }
    destruct (1 <=? n)%Z.
    + destruct (sample rng _ n) as [[smp rng'] | e] eqn:Hsm; [| discriminate].
      cbn [bind] in H. apply (IH _ _ _ H Hpa Hrest).
      * destruct (sample_of_slice _ _ _ _ Hsm) as [_ Hsid].
        apply sample_spec in Hsm. destruct Hsm as [(more & Hp) _].
        apply NoDup_app; [exact Hacc | |].
        -- assert (Hnd : NoDup (smp ++ more)).
           { eapply Permutation_NoDup; [symmetry; exact Hp |].
             apply NoDup_filter, Hpa. }
           apply NoDup_app_remove_r in Hnd. exact Hnd.
        -- intros r Hr Hr'. rewrite Forall_forall in Hold, Hsid.
           apply (Hold r Hr). left. symmetry. apply Hsid, Hr'.
      * apply Forall_app. split; [exact Hold' |].
        destruct (sample_of_slice _ _ _ _ Hsm) as [_ Hsid].
        eapply Forall_impl; [| exact Hsid]. cbn. intros r ->. exact Hs.
    + apply (IH _ _ _ H Hpa Hrest Hacc Hold').
Qed.

Lemma taken_absent sid l : ~ In sid (map fst l) -> taken sid l = 0.
Proof.
  induction l as [| [s n] l IH]; cbn; [reflexivity |].
  intros H. destruct (Z.eqb_spec s sid) as [-> | _]; [tauto |].
  cbn. apply IH. tauto.
Qed.

Lemma taken_in sid n l :
  NoDup (map fst l) -> In (sid, n) l ->
  taken sid l = if (1 <=? n)%Z then Z.to_nat n else 0.
Proof.
  induction l as [| [s m] l IH]; cbn [map fst taken In]; [tauto |].
  intros Hnd [E | Hin]; inversion Hnd as [| ? ? Hs Hl]; subst.
  - injection E as -> ->. rewrite Z.eqb_refl, (taken_absent _ _ Hs). cbn [andb]. lia.
  - destruct (Z.eqb_spec s sid) as [-> | _].
    + exfalso. apply Hs. apply (in_map fst) in Hin. exact Hin.
    + cbn [andb]. rewrite (IH Hl Hin). reflexivity.
Qed.

(** ** Dropping the validation rows *)

Lemma index_injective (pa : list Row) r r' :
  NoDup (map index pa) -> In r pa -> In r' pa -> index r = index r' -> r = r'.
Proof.
  induction pa as [| a pa IH]; cbn; [tauto |].
  intros Hnd Hr Hr' E. inversion Hnd as [| ? ? Ha Hpa]; subst.
  destruct Hr as [<- | Hr], Hr' as [<- | Hr']; auto.
  - exfalso. apply Ha. rewrite E. apply in_map, Hr'.
  - exfalso. apply Ha. rewrite <- E. apply in_map, Hr.
Qed.

Lemma drop_perm pa v labels t :
  NoDup (map index pa) -> NoDup v -> incl v pa -> labels = map index v ->
  drop pa labels = Ok t ->
  Permutation (t ++ v) pa.
Proof.
  intros Hidx Hv Hincl -> H. unfold drop in H.
  destruct (forallb _ _); [| discriminate]. injection H as <-.
  assert (Hpa : NoDup pa) by (eapply NoDup_map_inv, Hidx).
  assert (Hmem : forall r, In r pa ->
            existsb (Nat.eqb (index r)) (map index v) = true <-> In r v).
  { intros r Hr. rewrite existsb_exists. split.
    - intros (i & Hi & E). apply Nat.eqb_eq in E. subst i.
      apply in_map_iff in Hi. destruct Hi as (r' & E & Hr').
      rewrite (index_injective pa r r' Hidx Hr (Hincl _ Hr') (eq_sym E)). exact Hr'.
    - intros Hr'. exists (index r). split; [apply in_map, Hr' | apply Nat.eqb_refl]. }
  apply NoDup_Permutation.
  - apply NoDup_app; [apply NoDup_filter, Hpa | exact Hv |].
    intros r Hr Hr'. apply filter_In in Hr. destruct Hr as [Hr Hneg].
    apply negb_true_iff in Hneg. apply (Hmem r Hr) in Hr'. congruence.
  - exact Hpa.
  - intros r. rewrite in_app_iff, filter_In. split.
    + intros [[Hr _] | Hr]; [exact Hr | apply Hincl, Hr].
    + intros Hr. destruct (existsb (Nat.eqb (index r)) (map index v)) eqn:E.
      * right. apply (Hmem r Hr), E.
      * left. split; [exact Hr | reflexivity].
Qed.

(** ** The splitter, step by step *)

Lemma n_cls_val_inv val_ratio (l r : list (Z * Z)) :
  mapM (fun sv => n <- n_val val_ratio (snd sv) ;; Ok (fst sv, n)) l = Ok r ->
  map fst r = map fst l
  /\ forall sid n, In (sid, n) r ->
       exists c, In (sid, c) l /\ n_val val_ratio c = Ok n.
Proof.
  revert r. induction l as [| [s c] l IH]; intros r; cbn [mapM].
  - intros H. injection H as <-. split; [reflexivity | intros ? ? []].
  - cbn [snd fst]. destruct (n_val val_ratio c) as [n |] eqn:Hn; [| discriminate].
    cbn [bind]. destruct (mapM _ l) as [r' |]; [| discriminate].
    cbn [bind]. intros H. injection H as <-.
    destruct (IH r' eq_refl) as [Hk Hin]. split.
    + cbn. f_equal. exact Hk.
    + intros sid m [E | Hm].
      * injection E as <- <-. exists c. split; [left; reflexivity | exact Hn].
      * destruct (Hin _ _ Hm) as (c' & Hc' & Hn'). exists c'. split; [right; exact Hc' | exact Hn'].
Qed.

Section Run.

Variables (lines : list Obs) (val_ratio : float) (rng : list nat) (out : output).
Hypothesis Hrun : split_obs_per_species_frequency lines val_ratio rng = Ok out.

Local Abbreviation pa_train := (tagged lines).

Lemma run_inv :
  exists n_cls_val pa_val,
    map fst n_cls_val = map fst (classes (map fst lines))
    /\ (forall sid n, In (sid, n) n_cls_val ->
          n_val val_ratio (Z.of_nat (occurrences sid lines)) = Ok n)
    /\ val_loop rng pa_train n_cls_val [] = Ok pa_val
    /\ val out = retag "val" pa_val
    /\ drop pa_train (map index (val out)) = Ok (train out)
    /\ train_val out = (train out ++ val out)%list.
Proof.
  unfold split_obs_per_species_frequency in Hrun.
  rewrite map_species_tag in Hrun.
  fold (tagged lines) (classes (map fst lines)) in Hrun.
  destruct (mapM _ (classes (map fst lines))) as [n_cls_val |] eqn:Hn; [| discriminate].
  cbn [bind] in Hrun.
  destruct (py_inverse val_ratio) as [bound |]; [| discriminate].
  cbn [bind] in Hrun.
  destruct (val_loop rng pa_train n_cls_val []) as [pa_val |] eqn:Hloop; [| discriminate].
  cbn [bind] in Hrun.
  destruct (drop pa_train _) as [t |] eqn:Hdrop; [| discriminate].
  cbn [bind] in Hrun. injection Hrun as <-. cbn [val train train_val].
  exists n_cls_val, pa_val.
  destruct (n_cls_val_inv _ _ Hn) as [Hk Hin].
  repeat split; auto.
  intros sid n H. destruct (Hin _ _ H) as (c & Hc & Hnv).
  apply classes_in in Hc. destruct Hc as [_ ->]. exact Hnv.
Qed.

Lemma pa_train_index_nodup : NoDup (map index pa_train).
Proof. unfold tagged. rewrite map_index_read_csv. apply seq_NoDup. Qed.

(** The rows written are the lines read, each in one of the two frames. *)
Lemma frequency_partition :
  Permutation (map line_of (train out ++ val out)) (read_csv lines)
  /\ NoDup (map index (train out ++ val out))
  /\ Forall (fun r => subset r = "train") (train out)
  /\ Forall (fun r => subset r = "val") (val out)
  /\ train_val out = (train out ++ val out)%list.
Proof.
  destruct run_inv as (n_cls_val & pa_val & Hk & _ & Hloop & Hval & Hdrop & Htv).
  pose proof pa_train_index_nodup as Hidx.
  assert (Hpa : NoDup pa_train) by (eapply NoDup_map_inv, Hidx).
  assert (Hincl : incl pa_val pa_train).
  { eapply val_loop_incl; [exact Hloop | intros ? []]. }
  assert (Hnd : NoDup pa_val).
  { eapply val_loop_nodup; [exact Hloop | exact Hpa | | constructor | constructor].
    rewrite Hk. apply classes_keys_nodup. }
  assert (Hp : Permutation (train out ++ pa_val) pa_train).
  { eapply drop_perm; [exact Hidx | exact Hnd | exact Hincl | | exact Hdrop].
    rewrite Hval. apply map_index_retag. }
  assert (Hlines : Permutation (map line_of (train out ++ val out)) (read_csv lines)).
  { rewrite Hval, map_app, map_line_of_retag, <- map_app.
    rewrite (Permutation_map line_of Hp). unfold tagged.
    rewrite map_line_of_tag. reflexivity. }
  repeat split.
  - exact Hlines.
  - apply (Permutation_map fst) in Hlines. rewrite map_map in Hlines.
    eapply Permutation_NoDup; [symmetry; exact Hlines |].
    unfold read_csv. rewrite map_fst_combine by apply length_seq. apply seq_NoDup.
  - unfold drop in Hdrop. destruct (forallb _ _); [| discriminate].
    injection Hdrop as <-. apply Forall_forall. intros r Hr.
    apply filter_In in Hr. destruct Hr as [Hr _].
    unfold tagged, tag in Hr. apply in_map_iff in Hr.
    destruct Hr as (? & <- & _). reflexivity.
  - rewrite Hval. apply Forall_forall. intros r Hr.
    unfold retag in Hr. apply in_map_iff in Hr. destruct Hr as (? & <- & _). reflexivity.
  - exact Htv.
Qed.

Lemma count_pa_train sid : count sid pa_train = occurrences sid lines.
Proof.
  rewrite count_count_occ. unfold tagged. rewrite map_species_tag. reflexivity.
Qed.

Lemma count_retag sid s df : count sid (retag s df) = count sid df.
Proof. rewrite !count_count_occ, map_species_retag. reflexivity. Qed.

(** The validation rows of a class: its rounded share when that is at
    least one, none otherwise; the other rows of the class stay in train. *)
Lemma frequency_counts sid n :
  In sid (map fst lines) ->
  n_val val_ratio (Z.of_nat (occurrences sid lines)) = Ok n ->
  count sid (val out) = (if (1 <=? n)%Z then Z.to_nat n else 0)
  /\ count sid (train out) + count sid (val out) = occurrences sid lines.
Proof.
  intros Hsid Hn.
  destruct run_inv as (n_cls_val & pa_val & Hk & Hround & Hloop & Hval & Hdrop & Htv).
  assert (Hin : exists m, In (sid, m) n_cls_val).
  { assert (H : In sid (map fst n_cls_val)).
    { rewrite Hk. apply (Permutation_in _ (Permutation_sym (classes_keys _))).
      apply nodup_In, Hsid. }
    apply in_map_iff in H. destruct H as ([s m] & E & H). cbn in E. subst s.
    exists m. exact H. }
  destruct Hin as (m & Hm).
  assert (m = n) by (specialize (Hround _ _ Hm); congruence). subst m.
  split.
  - rewrite Hval, count_retag.
    erewrite val_loop_count by exact Hloop.
    erewrite taken_in; [reflexivity | | exact Hm].
    rewrite Hk. apply classes_keys_nodup.
  - destruct frequency_partition as (Hp & _).
    rewrite <- count_app, <- count_pa_train.
    rewrite !count_count_occ. apply Permutation_count_occ.
    apply (Permutation_map (fun l => fst (snd l))) in Hp.
    rewrite map_map in Hp. cbn [line_of fst snd] in Hp. rewrite Hp.
    unfold tagged. rewrite map_species_tag.
    unfold read_csv. rewrite <- (map_map snd fst), map_snd_combine by apply length_seq.
    reflexivity.
Qed.

End Run.

End FrequencyFacts.

(* ================================================================== *)
(** * Properties: the two splitters and the specification *)

Module SplitClaims.
Import Table ListFacts SpatialFacts FrequencyFacts.
Local Open Scope nat_scope.

(** X5. The rows that a split writes are the rows of its input, each in
    one of train and val and in one only.  For the spatial split, given
    that the positions drawn by the block split are those of the input,
    each once: the rows of the two frames (the cells of a row without the
    tag, the two coordinates first, in the order of the file) are the rows
    of the input, as many.  For the frequency split: the lines carried by
    the rows of train and val are the lines read under their index, no
    index is in both, and the rows are tagged by the frame they are in. *)
Theorem split_is_a_partition :
  (forall (df : Frame) (n : nat) (split : list nat * list nat) (out : Spatial.output),
      Spatial.well_formed df n ->
      ~ In "subset" (columns df) ->
      Spatial.partition split n ->
      Spatial.split_obs_spatially df split = Ok out ->
      Permutation
        (rows (map snd (Spatial.untagged (Spatial.df_train out)))
              (len (Spatial.df_train out))
         ++ rows (map snd (Spatial.untagged (Spatial.df_val out)))
                 (len (Spatial.df_val out)))
        (rows (map snd (Spatial.coords_first df)) n)
      /\ len (Spatial.df_train out) + len (Spatial.df_val out) = n)
  /\
  (forall (lines : list Frequency.Obs) (val_ratio : float) (rng : list nat)
          (out : Frequency.output),
      Frequency.split_obs_per_species_frequency lines val_ratio rng = Ok out ->
      Permutation
        (map Frequency.line_of (Frequency.train out ++ Frequency.val out))
        (Frequency.read_csv lines)
      /\ NoDup (map Frequency.index (Frequency.train out ++ Frequency.val out))
      /\ Forall (fun r => Frequency.subset r = "train") (Frequency.train out)
      /\ Forall (fun r => Frequency.subset r = "val") (Frequency.val out)
      /\ Frequency.train_val out = (Frequency.train out ++ Frequency.val out)%list).
Proof.
  split.
  - intros df n split out Hwf Hsub Hsplit Hrun.
    exact (spatial_rows_partition Hwf Hsub Hsplit Hrun).
  - intros lines val_ratio rng out Hrun.
    eapply frequency_partition, Hrun.
Qed.

Lemma split_is_a_partition_witness :
  (exists out,
      Spatial.split_obs_spatially Spatial.lat_first ([1], [0]) = Ok out
      /\ len (Spatial.df_train out) + len (Spatial.df_val out) = 2)
  /\
  (exists out,
      Frequency.split_obs_per_species_frequency Frequency.thirty_lines Frequency.one_tenth [3; 1; 4]
      = Ok out
      /\ NoDup (map Frequency.index (Frequency.train out ++ Frequency.val out))).
Proof.
  split.
  - destruct (Spatial.split_obs_spatially Spatial.lat_first ([1], [0])) as [out | e] eqn:E.
    + exists out. split; [reflexivity |].
      apply (proj1 split_is_a_partition Spatial.lat_first 2 ([1], [0]) out).
      * split; [repeat constructor; cbn; intuition discriminate | repeat constructor].
      * cbn. intuition discriminate.
      * apply perm_swap.
      * exact E.
    + vm_compute in E. discriminate E.
  - destruct (Frequency.split_obs_per_species_frequency Frequency.thirty_lines Frequency.one_tenth [3; 1; 4])
      as [out | e] eqn:E.
    + exists out. split; [reflexivity |].
      apply (proj2 split_is_a_partition Frequency.thirty_lines Frequency.one_tenth [3; 1; 4] out E).
    + vm_compute in E. discriminate E.
Defined.

Import Frequency.

(** C2, as amended.  A class of the input whose rounded share
    [round(count * val_ratio)] (the float product, a tie rounded to the
    even integer) is at least one has exactly that many rows in the
    validation frame; with the ratio 0.1 a class of 25 occurrences has
    exactly 2. *)
Theorem validation_share_of_a_class :
  (forall (lines : list Obs) (val_ratio : float) (rng : list nat) (out : output)
          (sid n : Z),
      split_obs_per_species_frequency lines val_ratio rng = Ok out ->
      In sid (map fst lines) ->
      n_val val_ratio (Z.of_nat (occurrences sid lines)) = Ok n ->
      (1 <= n)%Z ->
      count sid (val out) = Z.to_nat n)
  /\
  (forall (lines : list Obs) (rng : list nat) (out : output) (sid : Z),
      split_obs_per_species_frequency lines one_tenth rng = Ok out ->
      occurrences sid lines = 25 ->
      count sid (val out) = 2).
Proof.
  assert (G : forall lines val_ratio rng out sid n,
             split_obs_per_species_frequency lines val_ratio rng = Ok out ->
             In sid (map fst lines) ->
             n_val val_ratio (Z.of_nat (occurrences sid lines)) = Ok n ->
             (1 <= n)%Z ->
             count sid (val out) = Z.to_nat n).
  { intros lines val_ratio rng out sid n Hrun Hsid Hn H1.
    destruct (@frequency_counts lines val_ratio rng out Hrun sid n Hsid Hn) as [Hc _].
    rewrite Hc. destruct (Z.leb_spec 1 n); [reflexivity | lia]. }
  split; [exact G |].
  intros lines rng out sid Hrun H25.
  apply (G lines one_tenth rng out sid 2%Z Hrun).
  - unfold occurrences in H25. apply (count_occ_In Z.eq_dec). lia.
  - rewrite H25. reflexivity.
  - lia.
Qed.

Lemma validation_share_of_a_class_witness :
  exists out,
    split_obs_per_species_frequency Frequency.thirty_lines one_tenth [3; 1; 4] = Ok out
    /\ count 7 (val out) = 2.
Proof.
  destruct (split_obs_per_species_frequency Frequency.thirty_lines one_tenth [3; 1; 4])
    as [out | e] eqn:E.
  - exists out. split; [reflexivity |].
    apply (proj2 validation_share_of_a_class Frequency.thirty_lines [3; 1; 4] out 7%Z E).
    reflexivity.
  - vm_compute in E. discriminate E.
Defined.

(** C2 as stated fails: 25 * 0.1 is the float 2.5, which [round] takes to
    2, and a class of 25 occurrences has 2 validation rows, not 3. *)
Lemma twenty_five_yield_two :
  PrimFloat.mul (Numeric.float_of_int 25) one_tenth = 2.5%float
  /\ n_val one_tenth 25 = Ok 2%Z
  /\ exists out,
       split_obs_per_species_frequency (one_class 7 25) one_tenth [] = Ok out
       /\ count 7 (val out) = 2
       /\ count 7 (val out) <> 3.
Proof.
  split; [reflexivity | split; [reflexivity |]].
  eexists. split; [vm_compute; reflexivity |]. split; [reflexivity | discriminate].
Qed.

(** C3, as amended.  A class of the input whose rounded share
    [round(count * val_ratio)] is below one has no row in the validation
    frame, and all its rows are in train. *)
Theorem small_class_stays_in_train
    (lines : list Obs) (val_ratio : float) (rng : list nat) (out : output)
    (sid n : Z) :
  split_obs_per_species_frequency lines val_ratio rng = Ok out ->
  In sid (map fst lines) ->
  n_val val_ratio (Z.of_nat (occurrences sid lines)) = Ok n ->
  (n < 1)%Z ->
  count sid (val out) = 0
  /\ count sid (train out) = occurrences sid lines.
Proof.
  intros Hrun Hsid Hn H1.
  destruct (@frequency_counts lines val_ratio rng out Hrun sid n Hsid Hn) as [Hc Ht].
  destruct (Z.leb_spec 1 n); [lia |]. lia.
Qed.

Lemma small_class_stays_in_train_witness :
  exists out,
    split_obs_per_species_frequency Frequency.thirty_lines one_tenth [3; 1; 4] = Ok out
    /\ count 3 (val out) = 0
    /\ count 3 (train out) = occurrences 3 Frequency.thirty_lines.
Proof.
  destruct (split_obs_per_species_frequency Frequency.thirty_lines one_tenth [3; 1; 4])
    as [out | e] eqn:E.
  - exists out. split; [reflexivity |].
    apply (small_class_stays_in_train Frequency.thirty_lines one_tenth [3; 1; 4] 3%Z (n := 0%Z) E).
    + cbn. tauto.
    + reflexivity.
    + reflexivity.
  - vm_compute in E. discriminate E.
Defined.

(** C3 as stated fails: with the ratio 0.1 a class of 6 occurrences, fewer
    than 1 / 0.1 = 10, has a row in the validation frame. *)
Lemma six_are_split :
  Numeric.py_inverse one_tenth = Ok 10%float
  /\ PrimFloat.ltb (Numeric.float_of_int 6) 10%float = true
  /\ exists out,
       split_obs_per_species_frequency (one_class 7 6) one_tenth [] = Ok out
       /\ count 7 (val out) = 1.
Proof.
  split; [reflexivity | split; [reflexivity |]].
  eexists. split; [vm_compute; reflexivity | reflexivity].
Qed.

(** The count in the closing message adds up the rounded shares that are
    below [1 / val_ratio], not the rows of the classes left out of val:
    for one class of 5 occurrences it is 0. *)
Lemma closing_count_of_five :
  exists out,
    split_obs_per_species_frequency (one_class 7 5) one_tenth [] = Ok out
    /\ val out = []
    /\ indivisible_sid_n_rows out = 0%Z.
Proof. eexists. split; [vm_compute; reflexivity | split; reflexivity]. Qed.

(** C1.  On a file with the latitude before the longitude, the records
    written to train and val are not the records read: the frame of their
    union has the latitudes of the input as its longitudes, and its first
    record, tag aside, is no record of the input. *)
Theorem union_of_a_lat_first_split :
  exists out,
    Spatial.split_obs_spatially Spatial.lat_first ([0], [1]) = Ok out
    /\ get_item Spatial.lat_first "lon" = Some [Flt 3.5; Flt 2.5]
    /\ get_item (Spatial.df_train_val out) "lon" = Some [Flt 43.5; Flt 48.5]
    /\ forall i,
         ~ Permutation (record (Spatial.untagged (Spatial.df_train_val out)) 0)
                       (record Spatial.lat_first i).
Proof.
  eexists. split; [vm_compute; reflexivity |].
  split; [reflexivity |]. split; [reflexivity |].
  intros i H.
  assert (Hin : In ("lon", Flt 43.5) (record Spatial.lat_first i)).
  { apply (Permutation_in _ H). left. reflexivity. }
  cbn in Hin. destruct Hin as [E | [E | [E | []]]]; try discriminate E.
  injection E as E.
  destruct i as [| [| [| i]]]; cbn in E; try discriminate E;
    injection E as E; apply (f_equal Prim2SF) in E; vm_compute in E; discriminate E.
Qed.

(** C9.  On a file with the latitude before the longitude, the record
    written to train carries the latitude of its observation as [lon] and
    the longitude as [lat]. *)
Theorem coordinates_follow_the_column_order :
  exists out,
    Spatial.split_obs_spatially Spatial.lat_first ([0], [1]) = Ok out
    /\ record Spatial.lat_first 0
       = [("lat", Flt 43.5); ("lon", Flt 3.5); ("speciesId", Int 17)]
    /\ record (Spatial.df_train out) 0
       = [("lon", Flt 43.5); ("lat", Flt 3.5); ("subset", Str "train");
          ("speciesId", Int 17)].
Proof. eexists. split; [vm_compute; reflexivity | split; reflexivity]. Qed.

End SplitClaims.

(* ================================================================== *)
(** * Further properties of the code *)

Module Further.
Import Table ListFacts.
Local Open Scope nat_scope.

(** X1. Under the method 'manual', [is_point_in_bbox] answers true at
    every point on the boundary of the box. *)
Theorem manual_includes_the_boundary (p : Geometry.Point) (b : Geometry.BBox) :
  Geometry.on_boundary p b ->
  Geometry.is_point_in_bbox p b "manual" = Ok true.
Proof. intros [H _]. apply GeometryFacts.manual_point_iff, H. Qed.

Lemma manual_includes_the_boundary_witness :
  Geometry.is_point_in_bbox Geometry.edge_point Geometry.unit_box "manual" = Ok true.
Proof.
  apply manual_includes_the_boundary.
  unfold Geometry.on_boundary, Geometry.inside, Geometry.edge_point, Geometry.unit_box.
  cbn. repeat split; try (left; reflexivity); unfold Qle; cbn; lia.
Defined.

(** X2. A label that is not in the vocabulary raises nothing: its
    one-hot vector is all zeros. *)
Theorem unknown_label_is_dropped (l : Z) (vocab : list Z) :
  ~ In l vocab ->
  OneHot.to_one_hot_encoding (OneHot.Single l) vocab
  = repeat 0%Q (List.length vocab).
Proof.
  intros H. rewrite OneHotClaims.to_one_hot_encoding_map. cbn [OneHot.as_list existsb].
  induction vocab as [| v vocab IH]; cbn; [reflexivity |].
  rewrite IH by (cbn in H; tauto).
  destruct (Z.eqb_spec v l) as [-> | _]; [cbn in H; tauto | reflexivity].
Qed.

Lemma unknown_label_is_dropped_witness :
  OneHot.to_one_hot_encoding (OneHot.Single 7%Z) [10; 20; 30]%Z = [0%Q; 0%Q; 0%Q].
Proof.
  apply (unknown_label_is_dropped 7%Z [10; 20; 30]%Z).
  cbn. intuition discriminate.
Defined.

(** X3. The frequency split drops no row of any class: the rows of a
    class in train and in val are as many as the lines of the class. *)
Theorem class_rows_are_kept
    (lines : list Frequency.Obs) (val_ratio : float) (rng : list nat)
    (out : Frequency.output) (sid : Z) :
  Frequency.split_obs_per_species_frequency lines val_ratio rng = Ok out ->
  Frequency.count sid (Frequency.train out) + Frequency.count sid (Frequency.val out)
  = Frequency.occurrences sid lines.
Proof.
  intros Hrun.
  destruct (@FrequencyFacts.frequency_partition lines val_ratio rng out Hrun) as (Hp & _).
  rewrite <- FrequencyFacts.count_app, !FrequencyFacts.count_count_occ.
  unfold Frequency.occurrences. apply Permutation_count_occ.
  apply (Permutation_map (fun l => fst (snd l))) in Hp.
  rewrite map_map in Hp. cbn [Frequency.line_of fst snd] in Hp. rewrite Hp.
  unfold Frequency.read_csv.
  rewrite <- (map_map snd fst), map_snd_combine by apply length_seq.
  reflexivity.
Qed.

Lemma class_rows_are_kept_witness :
  exists out,
    Frequency.split_obs_per_species_frequency
      Frequency.thirty_lines Frequency.one_tenth [3; 1; 4] = Ok out
    /\ Frequency.count 7 (Frequency.train out) + Frequency.count 7 (Frequency.val out)
       = 25.
Proof.
  destruct (Frequency.split_obs_per_species_frequency
              Frequency.thirty_lines Frequency.one_tenth [3; 1; 4])
    as [out | e] eqn:E.
  - exists out. split; [reflexivity |].
    apply (class_rows_are_kept Frequency.thirty_lines Frequency.one_tenth [3; 1; 4] 7%Z E).
  - vm_compute in E. discriminate E.
Defined.

Lemma filter_split_perm {A} (p : A -> bool) (l : list A) :
  Permutation (filter p l ++ filter (fun a => negb (p a)) l) l.
Proof.
  induction l as [| a l IH]; cbn; [reflexivity |].
  destruct (p a); cbn.
  - apply perm_skip, IH.
  - rewrite <- Permutation_middle. apply perm_skip, IH.
Qed.

Lemma nth_gather index arr k :
  k < List.length index ->
  nth k (Spatial.gather index arr) (Str "") = nth (nth k index 0) arr (Str "").
Proof.
  intros Hk. unfold Spatial.gather.
  rewrite (nth_indep _ (Str "") (nth 0 arr (Str ""))) by (rewrite length_map; exact Hk).
  apply (map_nth (fun i => nth i arr (Str ""))).
Qed.

Lemma record_gathered index (d : Frame) k :
  k < List.length index ->
  record (combine (map fst d) (map (Spatial.gather index) (map snd d))) k
  = record d (nth k index 0).
Proof.
  intros Hk. unfold record. induction d as [| [name c] d IH]; cbn; [reflexivity |].
  rewrite IH, (@nth_gather index c k Hk). reflexivity.
Qed.

Lemma record_side df tag index a1 a2 k :
  k < List.length index ->
  Spatial.coords_of df = [("lon", a1); ("lat", a2)] ->
  Permutation (record (Spatial.side df tag index a1 a2) k)
              (("subset", Str tag) :: record df (nth k index 0)).
Proof.
  intros Hk Hc. unfold Spatial.side.
  unfold record at 1. rewrite map_app. fold (record (combine (map fst (Spatial.data_of df))
    (map (Spatial.gather index) (map snd (Spatial.data_of df)))) k).
  rewrite (@record_gathered index _ k Hk). cbn [map fst snd app].
  rewrite (@nth_gather index a1 k Hk), (@nth_gather index a2 k Hk), (nth_repeat_lt _ _ Hk).
  set (i := nth k index 0).
  transitivity (("subset", Str tag)
                :: record (Spatial.coords_of df ++ Spatial.data_of df) i)%list.
  - unfold record at 2. rewrite map_app, Hc. cbn [map fst snd app].
    fold (record (Spatial.data_of df) i).
    etransitivity; [apply perm_skip, perm_swap | apply perm_swap].
  - apply perm_skip. unfold record. apply Permutation_map.
    apply filter_split_perm.
Qed.

(** X4. On a file with the longitude before the latitude, every record
    written by the spatial split keeps the values of its observation
    under their column names, with the split tag added. *)
Theorem longitude_first_records_are_kept
    (df : Frame) (n : nat) (split : list nat * list nat) (out : Spatial.output)
    (a1 a2 : list cell) :
  Spatial.well_formed df n ->
  ~ In "subset" (columns df) ->
  Spatial.partition split n ->
  Spatial.coords_of df = [("lon", a1); ("lat", a2)] ->
  Spatial.split_obs_spatially df split = Ok out ->
  (forall k, k < List.length (fst split) ->
     Permutation (record (Spatial.df_train out) k)
                 (("subset", Str "train") :: record df (nth k (fst split) 0)))
  /\
  (forall k, k < List.length (snd split) ->
     Permutation (record (Spatial.df_val out) k)
                 (("subset", Str "val") :: record df (nth k (snd split) 0))).
Proof.
  intros Hwf Hsub Hsplit Hc Hrun.
  destruct (@SpatialFacts.split_obs_spatially_eval df n split Hwf Hsub Hsplit out Hrun)
    as (n1 & b1 & n2 & b2 & Hc' & -> & ->).
  rewrite Hc in Hc'. injection Hc' as <- <- <- <-.
  split; intros k Hk; apply record_side; assumption.
Qed.

Lemma longitude_first_records_are_kept_witness :
  exists out,
    Spatial.split_obs_spatially Spatial.lon_first ([1], [0]) = Ok out
    /\ Permutation (record (Spatial.df_train out) 0)
         (("subset", Str "train") :: record Spatial.lon_first 1).
Proof.
  destruct (Spatial.split_obs_spatially Spatial.lon_first ([1], [0])) as [out | e] eqn:E.
  - exists out. split; [reflexivity |].
    refine (proj1 (@longitude_first_records_are_kept Spatial.lon_first 2 ([1], [0]) out
                     [Flt 3.5; Flt 2.5] [Flt 43.5; Flt 48.5] _ _ _ _ E) 0 _).
    + split; [repeat constructor; cbn; intuition discriminate | repeat constructor].
    + cbn. intuition discriminate.
    + apply perm_swap.
    + reflexivity.
    + cbn. lia.
  - vm_compute in E. discriminate E.
Defined.

(** X6. Under the default method, [is_point_in_bbox] answers false at
    every point on the boundary of a box of positive width and height. *)
Theorem default_excludes_the_boundary (p : Geometry.Point) (b : Geometry.BBox) :
  Geometry.proper b ->
  Geometry.on_boundary p b ->
  Geometry.is_point_in_bbox p b Geometry.default_method = Ok false.
Proof. intros Hb Hp. apply GeometryFacts.shapely_boundary_false; assumption. Qed.

Lemma default_excludes_the_boundary_witness :
  Geometry.is_point_in_bbox (Geometry.mkPoint 2%Q 2%Q) Geometry.unit_box
    Geometry.default_method = Ok false.
Proof.
  apply default_excludes_the_boundary.
  - split; reflexivity.
  - unfold Geometry.on_boundary, Geometry.inside, Geometry.unit_box. cbn.
    repeat split; try (right; left; reflexivity); unfold Qle; cbn; lia.
Defined.

Lemma two_coordinates (df : Frame) :
  In "lon" (columns df) -> In "lat" (columns df) ->
  2 <= List.length (Spatial.coords_of df).
Proof.
  intros Hlon Hlat. unfold columns in *.
  apply in_map_iff in Hlon. destruct Hlon as (c1 & E1 & H1).
  apply in_map_iff in Hlat. destruct Hlat as (c2 & E2 & H2).
  assert (I1 : In c1 (Spatial.coords_of df)).
  { apply filter_In. split; [exact H1 |]. unfold Spatial.is_coord. rewrite E1. reflexivity. }
  assert (I2 : In c2 (Spatial.coords_of df)).
  { apply filter_In. split; [exact H2 |]. unfold Spatial.is_coord. rewrite E2. reflexivity. }
  assert (Hne : c1 <> c2) by (intros ->; rewrite E2 in E1; discriminate E1).
  destruct (Spatial.coords_of df) as [| x [| y l]]; cbn in *; try lia.
  destruct I1 as [<- | []], I2 as [<- | []]. congruence.
Qed.

(** X7. The spatial split returns its three frames whenever the input
    has a [lon] and a [lat] column and the block split draws positions of
    the input. *)
Theorem split_obs_spatially_returns
    (df : Frame) (n : nat) (split : list nat * list nat) :
  Spatial.well_formed df n ->
  Spatial.partition split n ->
  In "lon" (columns df) -> In "lat" (columns df) ->
  exists out, Spatial.split_obs_spatially df split = Ok out.
Proof.
  intros Hwf Hsplit Hlon Hlat.
  pose proof (two_coordinates df Hlon Hlat) as H2.
  unfold Spatial.split_obs_spatially, Spatial.spatial_tts.
  destruct (@SpatialFacts.positions_in_range n split Hsplit) as [Htr Hte].
  rewrite !(SpatialFacts.takes_gather Htr (@SpatialFacts.columns_long df n Hwf _)),
          !(SpatialFacts.takes_gather Hte (@SpatialFacts.columns_long df n Hwf _)).
  fold (Spatial.coords_of df).
  rewrite length_map.
  destruct (Nat.ltb_spec (List.length (Spatial.coords_of df)) 2) as [Hlt | _]; [lia |].
  cbn [bind fst snd].
  destruct (Spatial.coords_of df) as [| [n1 a1] [| [n2 a2] l]]; cbn in H2; try lia.
  cbn [map snd nth_error of_option bind].
  destruct (Spatial.fill _ _ _ _ _) as [t v]. eexists. reflexivity.
Qed.

Lemma split_obs_spatially_returns_witness :
  exists out, Spatial.split_obs_spatially Spatial.lon_first ([1], [0]) = Ok out.
Proof.
  apply (@split_obs_spatially_returns Spatial.lon_first 2 ([1], [0])).
  - split; [repeat constructor; cbn; intuition discriminate | repeat constructor].
  - apply perm_swap.
  - cbn. tauto.
  - cbn. tauto.
Defined.

End Further.

(* ================================================================== *)
(** * Further properties: geometry predicates *)

Module GeometryFurther.
Import Geometry GeometryFacts.
Local Open Scope Q_scope.

Lemma manual_bbox_bool a b :
  is_bbox_contained a b "manual" = Ok true <->
  (b0 b <= b0 a /\ b0 a <= b2 b /\ b0 b <= b2 a /\ b2 a <= b2 b
   /\ b1 b <= b1 a /\ b1 a <= b3 b /\ b1 b <= b3 a /\ b3 a <= b3 b).
Proof.
  unfold is_bbox_contained; cbn. split.
  - intros H. injection H as H. revert H. to_prop. tauto.
  - intros H. f_equal. to_prop. tauto.
Qed.

(** X8. Under the method 'manual', containment composes: a box contained
    in a second box that is contained in a third is contained in the
    third, and a point in a box is in every box that contains the box. *)
Theorem manual_containment_composes (a b c : BBox) (p : Point) :
  is_bbox_contained b c "manual" = Ok true ->
  (is_bbox_contained a b "manual" = Ok true ->
   is_bbox_contained a c "manual" = Ok true)
  /\ (is_point_in_bbox p b "manual" = Ok true ->
      is_point_in_bbox p c "manual" = Ok true).
Proof.
  intros Hbc. apply manual_bbox_bool in Hbc. split.
  - intros Hab. apply manual_bbox_bool in Hab. apply manual_bbox_bool.
    unfold coord in *. intuition lra.
  - intros Hp. apply manual_point_iff in Hp. apply manual_point_iff.
    unfold inside, coord in *. intuition lra.
Qed.

Lemma manual_containment_composes_witness :
  is_point_in_bbox (mkPoint 1 1) unit_box "manual" = Ok true.
Proof.
  apply (proj2 (@manual_containment_composes inner_box inner_box unit_box (mkPoint 1 1)
                  eq_refl)).
  reflexivity.
Defined.

(** X9. Under the method 'manual', a box whose bounds are out of order
    (its minimum above its maximum on an axis) contains no box and no
    point. *)
Theorem manual_disordered_box_is_empty (a b : BBox) (p : Point) :
  b2 b < b0 b \/ b3 b < b1 b ->
  is_bbox_contained a b "manual" = Ok false
  /\ is_point_in_bbox p b "manual" = Ok false.
Proof.
  intros H. split.
  - destruct (is_bbox_contained a b "manual") as [[|] |] eqn:E;
      try reflexivity; try discriminate E.
    apply manual_bbox_bool in E. unfold coord in *. exfalso. intuition lra.
  - destruct (is_point_in_bbox p b "manual") as [[|] |] eqn:E;
      try reflexivity; try discriminate E.
    apply manual_point_iff in E. unfold inside, coord in *. exfalso. intuition lra.
Qed.

Lemma manual_disordered_box_is_empty_witness :
  is_bbox_contained inner_box (mkBBox 2 0 0 2) "manual" = Ok false
  /\ is_point_in_bbox (mkPoint 1 1) (mkBBox 2 0 0 2) "manual" = Ok false.
Proof.
  apply manual_disordered_box_is_empty. left. reflexivity.
Defined.

Lemma shapely_point_iff p b :
  proper b ->
  (exists r, is_point_in_bbox p b "shapely" = Ok r)
  /\ (is_point_in_bbox p b "shapely" = Ok true <->
      b0 b < px p /\ px p < b2 b /\ b1 b < py p /\ py p < b3 b).
Proof.
  intros Hb. unfold is_point_in_bbox; cbn.
  unfold contains_point. rewrite (proper_valid Hb).
  destruct (envelope Hb) as (E1 & E2 & E3 & E4).
  split; [eexists; reflexivity |]. split.
  - intros H. injection H as H. revert H. to_prop.
    rewrite E1, E2, E3, E4. tauto.
  - intros H. f_equal. to_prop. rewrite E1, E2, E3, E4. tauto.
Qed.

(** X10. On a box of positive width and height the two methods of
    [is_point_in_bbox] differ on the boundary and nowhere else: the
    default method answers true exactly where 'manual' answers true and
    the point touches no bound. *)
Theorem methods_differ_on_the_boundary (p : Point) (b : BBox) :
  proper b ->
  (exists r, is_point_in_bbox p b default_method = Ok r)
  /\ (is_point_in_bbox p b default_method = Ok true <->
      is_point_in_bbox p b "manual" = Ok true /\ ~ on_boundary p b).
Proof.
  intros Hb. destruct (shapely_point_iff p Hb) as [Hr Hs].
  split; [exact Hr |]. unfold default_method.
  rewrite Hs, manual_point_iff. unfold on_boundary, inside, coord in *. split.
  - intros H. split; [intuition lra |]. intros [_ Ht]. intuition lra.
  - intros [Hin Hnb].
    assert (~ px p == b0 b /\ ~ px p == b2 b /\ ~ py p == b1 b /\ ~ py p == b3 b)
      as (N1 & N2 & N3 & N4) by tauto.
    repeat split; apply Qnot_le_lt; intros Hle; [apply N1 | apply N2 | apply N3 | apply N4];
      apply Qle_antisym; tauto.
Qed.

Lemma methods_differ_on_the_boundary_witness :
  is_point_in_bbox (mkPoint 1 1) unit_box default_method = Ok true <->
  is_point_in_bbox (mkPoint 1 1) unit_box "manual" = Ok true
  /\ ~ on_boundary (mkPoint 1 1) unit_box.
Proof.
  apply (@methods_differ_on_the_boundary (mkPoint 1 1) unit_box).
  split; reflexivity.
Defined.

End GeometryFurther.

(* ================================================================== *)
(** * Further properties: one-hot encoding *)

Module OneHotFurther.
Import OneHot OneHotClaims.
Local Open Scope nat_scope.

Lemma existsb_eqb_iff (a : Z) (l : list Z) : existsb (Z.eqb a) l = true <-> In a l.
Proof.
  rewrite existsb_exists. split.
  - intros (x & Hx & E). apply Z.eqb_eq in E. subst x. exact Hx.
  - intros H. exists a. split; [exact H | apply Z.eqb_refl].
Qed.

(** X11. The one-hot vector depends on which labels are predicted and on
    nothing else: neither their order nor their repetition changes it. *)
Theorem one_hot_of_the_label_set (p1 p2 : labels) (vocab : list Z) :
  (forall l, In l (as_list p1) <-> In l (as_list p2)) ->
  to_one_hot_encoding p1 vocab = to_one_hot_encoding p2 vocab.
Proof.
  intros H. rewrite !to_one_hot_encoding_map. apply map_ext. intros a.
  f_equal. apply eq_true_iff_eq. rewrite !existsb_eqb_iff. apply H.
Qed.

Lemma one_hot_of_the_label_set_witness :
  to_one_hot_encoding (Many [30; 10; 30]%Z) [10; 20; 30]%Z
  = to_one_hot_encoding (Many [10; 30]%Z) [10; 20; 30]%Z.
Proof.
  apply one_hot_of_the_label_set. cbn. intros l. tauto.
Defined.

(** X12. With a duplicate-free vocabulary and duplicate-free predicted
    labels that all are in the vocabulary, the one-hot vector has as many
    1.0 entries as there are predicted labels. *)
Theorem one_hot_counts_the_labels (ls vocab : list Z) :
  NoDup vocab -> NoDup ls -> incl ls vocab ->
  List.length (filter (Qeq_bool 1) (to_one_hot_encoding (Many ls) vocab))
  = List.length ls.
Proof.
  intros Hv Hl Hincl. rewrite to_one_hot_encoding_map. cbn [as_list].
  assert (E : forall v : list Z,
             filter (Qeq_bool 1) (map (fun a => hot (existsb (Z.eqb a) ls)) v)
             = map (fun a => hot (existsb (Z.eqb a) ls))
                   (filter (fun a => existsb (Z.eqb a) ls) v)).
  { induction v as [| a v IH]; [reflexivity |].
    cbn [map filter]. destruct (existsb (Z.eqb a) ls) eqn:E; cbn; rewrite ?E, IH; reflexivity. }
  rewrite E, length_map. apply Permutation_length, NoDup_Permutation.
  - apply NoDup_filter, Hv.
  - exact Hl.
  - intros a. rewrite filter_In, existsb_eqb_iff. split; [tauto |].
    intros Ha. split; [apply Hincl, Ha | exact Ha].
Qed.

Lemma one_hot_counts_the_labels_witness :
  List.length (filter (Qeq_bool 1) (to_one_hot_encoding (Many [30; 10]%Z) [10; 20; 30]%Z))
  = 2.
Proof.
  apply (@one_hot_counts_the_labels [30; 10]%Z [10; 20; 30]%Z).
  - repeat constructor; cbn; intuition discriminate.
  - repeat constructor; cbn; intuition discriminate.
  - intros a. cbn. tauto.
Defined.

(** X13. The one-hot vector of two lists of labels taken together is the
    entry-wise maximum of their two vectors. *)
Theorem one_hot_of_a_union (l1 l2 vocab : list Z) :
  to_one_hot_encoding (Many (l1 ++ l2)) vocab
  = map (fun ab => Qmax (fst ab) (snd ab))
        (combine (to_one_hot_encoding (Many l1) vocab)
                 (to_one_hot_encoding (Many l2) vocab)).
Proof.
  rewrite !to_one_hot_encoding_map. cbn [as_list].
  induction vocab as [| a vocab IH]; cbn [map combine]; [reflexivity |].
  rewrite IH. f_equal. cbn [fst snd]. rewrite existsb_app.
  destruct (existsb (Z.eqb a) l1), (existsb (Z.eqb a) l2); reflexivity.
Qed.

End OneHotFurther.

(* ================================================================== *)
(** * Further properties: recursive file discovery *)

Module FilesFurther.
Import Regex Files RegexFacts FilesFacts.
Local Open Scope nat_scope.

Lemma mapM_strip_dot_empty args :
  In "" args -> mapM strip_dot args = Raise IndexError.
Proof.
  induction args as [| e args IH]; cbn [In mapM]; [tauto |].
  intros [-> | H]; [reflexivity |].
  rewrite (IH H). destruct e; reflexivity.
Qed.

(** X14. An empty string among the extensions makes
    [get_files_path_recursively] raise [IndexError] ([ext[0]] of an empty
    string), whatever the root, the tree and the suffix; nothing is
    searched. *)
Theorem empty_extension_raises
    (fs : filesystem) (path : string) (args : list string) (suffix : string) :
  In "" args ->
  get_files_path_recursively fs path args suffix = Raise IndexError.
Proof.
  intros H. unfold get_files_path_recursively.
  rewrite (mapM_strip_dot_empty _ H). reflexivity.
Qed.

Lemma empty_extension_raises_witness :
  get_files_path_recursively (example_fs "data") "nowhere" ["csv"; ""; ".txt"] "_v2"
  = Raise IndexError.
Proof.
  apply empty_extension_raises. cbn. tauto.
Defined.

Lemma filterM_raise {A} (e : exn) (p : A -> res bool) (l : list A) :
  (forall a, p a = Raise e) -> l <> [] -> filterM p l = Raise e.
Proof.
  intros Hp Hl. destruct l as [| a l]; [congruence |].
  cbn [filterM]. rewrite Hp. reflexivity.
Qed.

(** X15. A suffix or an extension that makes the pattern an invalid
    regular expression raises the error of [re] only when the walk comes
    to a file: over a tree without any file (or a missing root) the
    result is the empty list, with at least one file the error is
    raised, whether or not the file would match. *)
Theorem invalid_pattern_needs_a_file
    (fs : filesystem) (path : string) (args : list string) (suffix : string) :
  Forall (fun e => e <> "") args ->
  compile (pattern suffix (String.concat "|" (map undot args))) = Raise ReError ->
  get_files_path_recursively fs path args suffix
  = match candidates (os_walk fs path) with
    | [] => Ok []
    | _ :: _ => Raise ReError
    end.
Proof.
  intros Hargs Hc. unfold get_files_path_recursively.
  rewrite (mapM_strip_dot Hargs). cbn [bind].
  destruct (candidates (os_walk fs path)) as [| df l]; [reflexivity |].
  rewrite (@filterM_raise _ ReError); [reflexivity | | discriminate].
  intros a. unfold search. rewrite Hc. reflexivity.
Qed.

Lemma invalid_pattern_needs_a_file_witness :
  get_files_path_recursively (example_fs "data") "data" ["csv"] "("
  = Raise ReError.
Proof.
  apply (@invalid_pattern_needs_a_file (example_fs "data") "data" ["csv"] "(").
  - repeat constructor; discriminate.
  - reflexivity.
Defined.

Lemma selected_no_extension suffix f :
  selected suffix [""] f
  = has_suffix (list_ascii_of_string (suffix ++ ".")) (list_ascii_of_string f).
Proof.
  apply eq_true_iff_eq.
  rewrite selected_iff by (repeat constructor).
  rewrite has_suffix_iff. split.
  - intros (p & e & He & Hf). cbn in He. destruct He as [<- | []].
    exists p. rewrite Hf, list_ascii_app. reflexivity.
  - intros (p & Hf). exists p, []. split; [left; reflexivity |].
    rewrite Hf, list_ascii_app. reflexivity.
Qed.

(** X16. Called with no extension at all, [get_files_path_recursively]
    does not return every file: the group of extensions is empty, and
    (for a suffix of plain characters and file names without a newline)
    the files returned are exactly those whose name ends with the suffix
    followed by a dot. *)
Theorem no_extension_selects_dotted_names
    (fs : filesystem) (path : string) (suffix : string) :
  plain suffix ->
  Forall (fun df => no_newline (snd df)) (candidates (os_walk fs path)) ->
  get_files_path_recursively fs path [] suffix
  = Ok (map (fun df => path_join (fst df) (snd df))
          (filter (fun df => has_suffix (list_ascii_of_string (suffix ++ "."))
                               (list_ascii_of_string (snd df)))
             (candidates (os_walk fs path)))).
Proof.
  intros Hs Hnames. unfold get_files_path_recursively. cbn [mapM bind].
  rewrite (filterM_filter _
             (fun df => has_suffix (list_ascii_of_string (suffix ++ "."))
                          (list_ascii_of_string (snd df)))); [reflexivity |].
  eapply Forall_impl; [| exact Hnames]. intros df Hdf.
  change (String.concat "|" []) with (String.concat "|" [""]).
  rewrite search_selected.
  - rewrite selected_no_extension. reflexivity.
  - exact Hs.
  - repeat constructor.
  - discriminate.
  - exact Hdf.
Qed.

Lemma no_extension_selects_dotted_names_witness :
  get_files_path_recursively
    (single "data" (Dir [("a.csv", File); ("notes.", File); ("b", File)])) "data" [] ""
  = Ok ["data/notes."].
Proof.
  rewrite no_extension_selects_dotted_names.
  - reflexivity.
  - reflexivity.
  - repeat constructor.
Defined.

Lemma search_plain fs path args suffix :
  plain suffix -> args <> [] ->
  Forall (fun e => e <> "" /\ plain (undot e)) args ->
  Forall (fun df => no_newline (snd df)) (candidates (os_walk fs path)) ->
  get_files_path_recursively fs path args suffix
  = Ok (map (fun df => path_join (fst df) (snd df))
          (filter (fun df => selected suffix (map undot args) (snd df))
             (candidates (os_walk fs path)))).
Proof.
  intros Hs Hne Hargs Hnames. unfold get_files_path_recursively.
  rewrite mapM_strip_dot
    by (eapply Forall_impl; [| exact Hargs]; cbn; tauto).
  cbn [bind].
  rewrite (filterM_filter _ (fun df => selected suffix (map undot args) (snd df)));
    [reflexivity |].
  eapply Forall_impl; [| exact Hnames]. intros df Hdf.
  apply search_selected.
  - exact Hs.
  - apply Forall_map. eapply Forall_impl; [| exact Hargs]. cbn. tauto.
  - destruct args; [congruence | discriminate].
  - exact Hdf.
Qed.

(** X17. The extensions are a set: two lists of plain extensions that
    hold the same extensions (a leading dot aside), in any order and any
    number of times, find the same files in the same order. *)
Theorem extensions_are_a_set
    (fs : filesystem) (path : string) (args1 args2 : list string) (suffix : string) :
  plain suffix ->
  args1 <> [] ->
  Forall (fun e => e <> "" /\ plain (undot e)) args1 ->
  Forall (fun e => e <> "" /\ plain (undot e)) args2 ->
  (forall e, In e (map undot args1) <-> In e (map undot args2)) ->
  Forall (fun df => no_newline (snd df)) (candidates (os_walk fs path)) ->
  get_files_path_recursively fs path args1 suffix
  = get_files_path_recursively fs path args2 suffix.
Proof.
  intros Hs Hne H1 H2 Hset Hnames.
  assert (Hne2 : args2 <> []).
  { destruct args1 as [| a l]; [congruence |]. intros ->.
    apply (Hset (undot a)). left. reflexivity. }
  rewrite !search_plain by assumption.
  do 2 f_equal. apply filter_ext. intros df. unfold selected.
  destruct (split_ext _) as [[stem ext] |]; [| reflexivity].
  f_equal. apply eq_true_iff_eq. rewrite !existsb_exists.
  split; intros (e & He & E); exists e; split; try exact E; apply Hset, He.
Qed.

Lemma extensions_are_a_set_witness :
  get_files_path_recursively (example_fs "data") "data" ["csv"; "txt"] ""
  = get_files_path_recursively (example_fs "data") "data" [".txt"; "csv"; ".csv"] "".
Proof.
  apply extensions_are_a_set.
  - reflexivity.
  - discriminate.
  - repeat constructor; discriminate.
  - repeat constructor; discriminate.
  - intros e. cbn. tauto.
  - repeat constructor.
Defined.

(** ** The walk, one directory at a time *)

Lemma walk_dir top es :
  walk top (Dir es)
  = (top, dirnames es, filenames es)
    :: flat_map (fun e => walk (path_join top (fst e)) (snd e)) es.
Proof.
  cbn [walk]. f_equal.
  induction es as [| [name child] es IH]; [reflexivity |].
  cbn [flat_map fst snd]. rewrite IH. reflexivity.
Qed.

Lemma candidates_app a b : candidates (a ++ b) = (candidates a ++ candidates b)%list.
Proof. unfold candidates. apply flat_map_app. Qed.

Lemma candidates_dir top es :
  candidates (walk top (Dir es))
  = (map (pair top) (filenames es)
     ++ flat_map (fun e => candidates (walk (path_join top (fst e)) (snd e))) es)%list.
Proof.
  rewrite walk_dir. unfold candidates at 1. cbn [flat_map fst snd]. f_equal.
  fold (candidates (flat_map (fun e => walk (path_join top (fst e)) (snd e)) es)).
  induction es as [| e es IH]; [reflexivity |].
  cbn [flat_map]. rewrite candidates_app, IH. reflexivity.
Qed.

Lemma candidates_only_files top es :
  candidates (walk top (Dir (only_files es))) = map (pair top) (filenames es).
Proof.
  rewrite candidates_dir.
  assert (E : filenames (only_files es) = filenames es).
  { unfold filenames, only_files. f_equal.
    induction es as [| e es IH]; [reflexivity |].
    cbn [filter]. destruct (negb (is_dir (snd e))) eqn:He; cbn [filter];
      rewrite ?He, IH; reflexivity. }
  rewrite E. clear E.
  assert (Z : flat_map (fun e => candidates (walk (path_join top (fst e)) (snd e)))
                (only_files es) = []).
  { unfold only_files. induction es as [| [name child] es IH]; [reflexivity |].
    cbn [filter snd]. destruct child; cbn [is_dir negb]; [| exact IH].
    cbn [flat_map fst snd walk]. exact IH. }
  rewrite Z. apply app_nil_r.
Qed.

Lemma filterM_app {A} (p : A -> res bool) (a b : list A) :
  filterM p (a ++ b)
  = (x <- filterM p a ;; y <- filterM p b ;; Ok (x ++ y)%list).
Proof.
  induction a as [| c a IH]; cbn [app filterM].
  - cbn [bind]. destruct (filterM p b); reflexivity.
  - destruct (p c) as [t |]; [| reflexivity]. cbn [bind]. rewrite IH.
    destruct (filterM p a) as [x |]; [| reflexivity]. cbn [bind].
    destruct (filterM p b) as [y |]; [| reflexivity]. cbn [bind].
    destruct t; reflexivity.
Qed.

Lemma mapM_ext_in {A B} (f g : A -> res B) (l : list A) :
  (forall a, In a l -> f a = g a) -> mapM f l = mapM g l.
Proof.
  induction l as [| a l IH]; intros H; cbn [mapM]; [reflexivity |].
  rewrite (H a (or_introl eq_refl)), IH; [reflexivity |].
  intros b Hb. apply H. right. exact Hb.
Qed.

Lemma select_flat_map {A E} (p : A -> res bool) (j : A -> string)
    (h : E -> list A) (l : list E) :
  (sel <- filterM p (flat_map h l) ;; Ok (map j sel))
  = (subs <- mapM (fun e => sel <- filterM p (h e) ;; Ok (map j sel)) l ;;
     Ok (List.concat subs)).
Proof.
  induction l as [| e l IH]; [reflexivity |].
  cbn [flat_map mapM]. rewrite filterM_app.
  destruct (filterM p (h e)) as [x |]; [| reflexivity]. cbn [bind].
  destruct (filterM p (flat_map h l)) as [y |]; cbn [bind] in *.
  - destruct (mapM _ l) as [subs |]; [| discriminate]. cbn [bind] in *.
    injection IH as IH. cbn [List.concat]. rewrite map_app, IH. reflexivity.
  - destruct (mapM _ l) as [subs |]; [discriminate |]. cbn [bind].
    exact IH.
Qed.

(** X18. The search of a directory is the search among its own files
    followed by the searches of its entries, one after the other in the
    order of the listing, each from its joined path (an entry that is a
    file gives nothing there); an exception of any of them is the
    exception of the whole. *)
Theorem search_of_a_directory
    (fs : filesystem) (path : string) (es : list (string * node))
    (args : list string) (suffix : string) :
  fs path = Some (Dir es) ->
  (forall name child, In (name, child) es -> fs (path_join path name) = Some child) ->
  get_files_path_recursively fs path args suffix
  = (own <- get_files_path_recursively (single path (Dir (only_files es))) path args suffix ;;
     subs <- mapM (fun e => get_files_path_recursively fs (path_join path (fst e)) args suffix) es ;;
     Ok (own ++ List.concat subs)%list).
Proof.
  intros Hroot Hsub. unfold get_files_path_recursively.
  destruct (mapM strip_dot args) as [exts |]; [| reflexivity].
  cbn [bind]. unfold os_walk at 1 2. unfold single at 1.
  rewrite Hroot, String.eqb_refl.
  rewrite candidates_dir, candidates_only_files, filterM_app.
  set (p := fun df : string * string =>
              search (pattern suffix (String.concat "|" exts)) (snd df)).
  set (j := fun df : string * string => path_join (fst df) (snd df)).
  destruct (filterM p (map (pair path) (filenames es))) as [own |]; [| reflexivity].
  cbn [bind].
  rewrite (@mapM_ext_in _ _ _
             (fun e => sel <- filterM p (candidates (walk (path_join path (fst e)) (snd e))) ;;
                       Ok (map j sel))).
  - pose proof (select_flat_map p j
        (fun e => candidates (walk (path_join path (fst e)) (snd e))) es) as E.
    destruct (filterM p (flat_map _ es)) as [y |], (mapM _ es) as [subs |];
      cbn [bind] in *; try discriminate E.
    + injection E as E. rewrite map_app, E. reflexivity.
    + exact E.
  - intros [name child] Hin. cbn [fst snd]. unfold os_walk.
    rewrite (Hsub name child Hin). reflexivity.
Qed.

Lemma search_of_a_directory_witness :
  get_files_path_recursively
    (fun p => if String.eqb p "data" then Some example_tree
              else if String.eqb p "data/sub" then Some (Dir [("c.csv", File)])
              else if String.eqb p "data/a.csv" then Some File
              else if String.eqb p "data/b.txt" then Some File
              else None) "data" ["csv"] ""
  = Ok ["data/a.csv"; "data/sub/c.csv"].
Proof.
  rewrite (@search_of_a_directory _ "data"
             [("a.csv", File); ("b.txt", File); ("sub", Dir [("c.csv", File)])]).
  - reflexivity.
  - reflexivity.
  - intros name child H. cbn in H.
    destruct H as [E | [E | [E | []]]]; injection E as <- <-; reflexivity.
Defined.

End FilesFurther.

(* ================================================================== *)
(** * Further properties: the floats of the frequency split *)

Module NumericFacts.
Import Numeric Frequency.
Local Open Scope Z_scope.

Lemma digits2_lower p : 2 ^ (Z.pos (digits2_pos p) - 1) <= Z.pos p.
Proof.
  induction p as [p IH | p IH |]; cbn [digits2_pos].
  - rewrite Pos2Z.inj_succ. replace (Z.succ (Z.pos (digits2_pos p)) - 1)
      with (Z.succ (Z.pos (digits2_pos p) - 1)) by lia.
    rewrite Z.pow_succ_r by lia. lia.
  - rewrite Pos2Z.inj_succ. replace (Z.succ (Z.pos (digits2_pos p)) - 1)
      with (Z.succ (Z.pos (digits2_pos p) - 1)) by lia.
    rewrite Z.pow_succ_r by lia. lia.
  - cbn. lia.
Qed.

Lemma digits2_bound p k : 0 <= k -> Z.pos p < 2 ^ k -> Z.pos (digits2_pos p) <= k.
Proof.
  intros Hk Hp. pose proof (digits2_lower p) as Hl.
  destruct (Z.le_gt_cases (Z.pos (digits2_pos p)) k) as [| Hgt]; [assumption |].
  assert (2 ^ k <= 2 ^ (Z.pos (digits2_pos p) - 1)) by (apply Z.pow_le_mono_r; lia).
  lia.
Qed.

Lemma digits2_iter p k :
  Z.pos (digits2_pos (Pos.iter xO p k)) = Z.pos (digits2_pos p) + Z.pos k.
Proof.
  induction k as [| k IH] using Pos.peano_ind.
  - cbn. lia.
  - rewrite Pos.iter_succ. cbn [digits2_pos]. lia.
Qed.

Lemma digits2_succ p : Z.pos (digits2_pos (Pos.succ p)) <= Z.pos (digits2_pos p) + 1.
Proof.
  induction p as [p IH | p IH |]; cbn [Pos.succ digits2_pos]; lia.
Qed.

Lemma Zdigits2_nonneg m : 0 <= Zdigits2 m.
Proof. destruct m; cbn; lia. Qed.

Lemma Zdigits2_add_1 m : 0 <= m -> Zdigits2 (m + 1) <= Zdigits2 m + 1.
Proof.
  destruct m as [| p | p]; intros H; [cbn; lia | | lia].
  replace (Z.pos p + 1) with (Z.pos (Pos.succ p)) by lia.
  apply digits2_succ.
Qed.

Lemma shr_1_inv r :
  0 <= shr_m r ->
  0 <= shr_m (shr_1 r) /\ Zdigits2 (shr_m (shr_1 r)) <= Zdigits2 (shr_m r).
Proof.
  destruct r as [m rb sb]. cbn [shr_m]. intros H.
  destruct m as [| [p | p |] | p]; cbn; lia.
Qed.

Lemma iter_shr_1_inv n : forall r,
  0 <= shr_m r ->
  0 <= shr_m (iter_pos shr_1 n r)
  /\ Zdigits2 (shr_m (iter_pos shr_1 n r)) <= Zdigits2 (shr_m r).
Proof.
  induction n as [n IH | n IH |]; intros r H; cbn [iter_pos].
  - destruct (shr_1_inv r H) as [H1 D1].
    destruct (IH _ H1) as [H2 D2]. destruct (IH _ H2) as [H3 D3]. lia.
  - destruct (IH _ H) as [H2 D2]. destruct (IH _ H2) as [H3 D3]. lia.
  - apply shr_1_inv, H.
Qed.

Lemma shr_record_of_loc_m m l : shr_m (shr_record_of_loc m l) = m.
Proof. destruct l as [| []]; reflexivity. Qed.

Lemma shr_fexp_inv m e l :
  0 <= m ->
  let r := shr_fexp prec emax m e l in
  0 <= shr_m (fst r)
  /\ Zdigits2 (shr_m (fst r)) <= Zdigits2 m
  /\ (snd r = e \/ snd r = fexp prec emax (Zdigits2 m + e)).
Proof.
  intros H. unfold shr_fexp, shr.
  destruct (fexp prec emax (Zdigits2 m + e) - e) as [| n | n] eqn:E; cbn [fst snd];
    rewrite ?shr_record_of_loc_m; try (repeat split; auto; lia).
  destruct (@iter_shr_1_inv n (shr_record_of_loc m l)) as [H1 H2];
    [rewrite shr_record_of_loc_m; exact H |].
  rewrite shr_record_of_loc_m in H2. repeat split; auto. right. lia.
Qed.

Lemma round_nearest_even_inv m l :
  0 <= m ->
  0 <= round_nearest_even m l
  /\ Zdigits2 (round_nearest_even m l) <= Zdigits2 m + 1.
Proof.
  intros H. pose proof (Zdigits2_add_1 H). pose proof (Zdigits2_nonneg m).
  unfold round_nearest_even. destruct l as [| []]; try destruct (Z.even m); lia.
Qed.

Lemma binary_round_aux_number sx mx ex lx :
  0 <= mx -> ex <= 400 -> Zdigits2 mx + ex <= 400 -> Zdigits2 mx <= 400 ->
  is_number (binary_round_aux prec emax sx mx ex lx).
Proof.
  intros Hm He Hd HD. unfold binary_round_aux.
  pose proof (shr_fexp_inv ex lx Hm) as H1. cbv zeta in H1.
  destruct (shr_fexp prec emax mx ex lx) as [mrs' e']. cbn [fst snd] in H1.
  destruct H1 as (Hm1 & Hd1 & He1).
  pose proof (round_nearest_even_inv (loc_of_shr_record mrs') Hm1) as [Hr Hrd].
  pose proof (shr_fexp_inv e' loc_Exact Hr) as H2. cbv zeta in H2.
  destruct (shr_fexp prec emax _ e' loc_Exact) as [mrs'' e'']. cbn [fst snd] in H2.
  destruct H2 as (Hm2 & _ & He2).
  destruct (shr_m mrs'') as [| m | m]; [exact I | | lia].
  assert (Hb : e'' <= emax - prec).
  { unfold fexp, emin, emax, prec in *. change IntDef.Z.max with Z.max in *. lia. }
  apply Z.leb_le in Hb. rewrite Hb. exact I.
Qed.

Lemma binary_normalize_number m :
  0 <= m < 2 ^ 63 -> is_number (binary_normalize prec emax m 0 false).
Proof.
  intros [H0 H1]. destruct m as [| p | p]; [exact I | | lia].
  cbn [binary_normalize]. unfold binary_round.
  pose proof (@digits2_bound p 63 ltac:(lia) H1) as Hd.
  rewrite Z.add_0_r. unfold shl_align.
  destruct (fexp prec emax (Z.pos (digits2_pos p)) - 0) as [| n | n] eqn:E.
  - apply binary_round_aux_number; cbn [Zdigits2]; lia.
  - apply binary_round_aux_number; cbn [Zdigits2]; lia.
  - assert (Hn : Z.pos n <= 1074).
    { unfold fexp, emin, emax, prec in E. change IntDef.Z.max with Z.max in E. lia. }
    apply binary_round_aux_number; cbn [Zdigits2]; rewrite ?digits2_iter;
      unfold fexp, emin, emax, prec in *; change IntDef.Z.max with Z.max in *; lia.
Qed.

(** The float of a count is a number. *)
Lemma float_of_int_number v : 0 <= v -> is_number (Prim2SF (float_of_int v)).
Proof.
  intros H. unfold float_of_int.
  destruct (Z.ltb_spec v 0) as [| _]; [lia |].
  rewrite of_uint63_spec. apply binary_normalize_number.
  pose proof (Uint63.to_Z_bounded (Uint63.of_Z v)) as B.
  change wB with (2 ^ 63) in B. exact B.
Qed.

(** [round(count * 0.0)] is 0. *)
Lemma n_val_zero val_ratio v :
  0 <= v -> PrimFloat.eqb val_ratio 0 = true -> n_val val_ratio v = Ok 0.
Proof.
  intros Hv Hz. unfold n_val, py_round.
  rewrite FloatAxioms.mul_spec.
  pose proof (float_of_int_number Hv) as Hn.
  rewrite FloatAxioms.eqb_spec in Hz.
  assert (Hr : exists s', Prim2SF val_ratio = S754_zero s').
  { change (Prim2SF 0) with (S754_zero false) in Hz.
    destruct (Prim2SF val_ratio) as [s' | s' | | s' m' e']; cbn in Hz.
    - exists s'. reflexivity.
    - destruct s'; discriminate Hz.
    - discriminate Hz.
    - destruct s'; discriminate Hz. }
  destruct Hr as (s' & ->).
  destruct (Prim2SF (float_of_int v)) as [s | s | | s m e]; try contradiction;
    reflexivity.
Qed.

End NumericFacts.

(* ================================================================== *)
(** * Further properties: the frequency-stratified splitter *)

Module FrequencyFurther.
Import Table Numeric Frequency ListFacts FrequencyFacts NumericFacts.
Local Open Scope nat_scope.

Local Abbreviation shares val_ratio :=
  (mapM (fun sv : Z * Z => n <- n_val val_ratio (snd sv) ;; Ok (fst sv, n))).

Lemma shares_computed val_ratio (l : list (Z * Z)) :
  (forall s c, In (s, c) l -> exists n, n_val val_ratio c = Ok n) ->
  exists r, shares val_ratio l = Ok r.
Proof.
  induction l as [| [s c] l IH]; intros H; cbn [mapM].
  - exists []. reflexivity.
  - destruct (H s c (or_introl eq_refl)) as (n & Hn). cbn [snd fst]. rewrite Hn.
    destruct IH as (r & Hr); [intros s' c' Hin; apply (H s' c'); right; exact Hin |].
    rewrite Hr. exists ((s, n) :: r). reflexivity.
Qed.

Lemma shares_in val_ratio (l r : list (Z * Z)) s c n :
  shares val_ratio l = Ok r -> In (s, c) l -> n_val val_ratio c = Ok n -> In (s, n) r.
Proof.
  revert r. induction l as [| [s' c'] l IH]; intros r; cbn [mapM In]; [tauto |].
  cbn [snd fst]. destruct (n_val val_ratio c') as [n' |] eqn:Hn'; [| discriminate].
  cbn [bind]. destruct (mapM _ l) as [r' |]; [| discriminate].
  cbn [bind]. intros H [E | Hin] Hn; injection H as <-.
  - injection E as -> ->. left. congruence.
  - right. apply (IH r' eq_refl Hin Hn).
Qed.

Lemma sample_raises rng df n e : sample rng df n = Raise e -> e = ValueError.
Proof. unfold sample. destruct (_ <? _)%Z; [congruence | discriminate]. Qed.

Lemma val_loop_raises pa sid n n_cls_val :
  In (sid, n) n_cls_val -> (1 <= n)%Z -> (Z.of_nat (count sid pa) < n)%Z ->
  forall rng acc, val_loop rng pa n_cls_val acc = Raise ValueError.
Proof.
  intros Hin H1 Hlt. induction n_cls_val as [| [s m] rest IH]; [destruct Hin |].
  intros rng acc. cbn [val_loop]. destruct Hin as [E | Hin].
  - injection E as -> ->. apply Z.leb_le in H1. rewrite H1.
    unfold sample. fold (count sid pa). apply Z.ltb_lt in Hlt. rewrite Hlt. reflexivity.
  - destruct (1 <=? m)%Z; [| apply (IH Hin)].
    destruct (sample rng _ m) as [[smp rng'] | e] eqn:Hs; cbn [bind].
    + apply (IH Hin).
    + apply sample_raises in Hs. subst e. reflexivity.
Qed.

Lemma val_loop_returns pa n_cls_val :
  (forall s m, In (s, m) n_cls_val -> (m <= Z.of_nat (count s pa))%Z) ->
  forall rng acc, exists res, val_loop rng pa n_cls_val acc = Ok res.
Proof.
  induction n_cls_val as [| [s m] rest IH]; intros H rng acc; cbn [val_loop].
  - exists acc. reflexivity.
  - assert (H' : forall s' m', In (s', m') rest -> (m' <= Z.of_nat (count s' pa))%Z).
    { intros s' m' Hin. apply H. right. exact Hin. }
    destruct (1 <=? m)%Z; [| apply (IH H')].
    unfold sample. fold (count s pa).
    pose proof (H s m (or_introl eq_refl)) as Hm.
    destruct (Z.ltb_spec (Z.of_nat (count s pa)) m) as [| _]; [lia |].
    cbn [bind]. destruct (choose rng _ _) as [smp rng']. apply (IH H').
Qed.

Lemma drop_returns pa labels :
  incl labels (map index pa) -> exists t, drop pa labels = Ok t.
Proof.
  intros Hincl. unfold drop.
  assert (E : forallb (fun l => existsb (Nat.eqb l) (map index pa)) labels = true).
  { apply forallb_forall. intros l Hl. apply existsb_exists. exists l.
    split; [apply Hincl, Hl | apply Nat.eqb_refl]. }
  rewrite E. eexists. reflexivity.
Qed.

Lemma class_of_line sid (lines : list Obs) :
  In sid (map fst lines) ->
  In (sid, Z.of_nat (occurrences sid lines)) (classes (map fst lines)).
Proof. intros H. apply classes_in. split; [exact H | reflexivity]. Qed.

(** X19. A class whose rounded share exceeds its number of rows (a
    [val_ratio] above 1) cannot be sampled without replacement: when the
    shares are computed and [val_ratio] is not zero, the run raises
    [ValueError] and writes nothing. *)
Theorem oversized_share_raises
    (lines : list Obs) (val_ratio : float) (rng : list nat) (sid n : Z) :
  PrimFloat.eqb val_ratio 0 = false ->
  (forall s, In s (map fst lines) ->
     exists m, n_val val_ratio (Z.of_nat (occurrences s lines)) = Ok m) ->
  In sid (map fst lines) ->
  n_val val_ratio (Z.of_nat (occurrences sid lines)) = Ok n ->
  (Z.of_nat (occurrences sid lines) < n)%Z ->
  split_obs_per_species_frequency lines val_ratio rng = Raise ValueError.
Proof.
  intros Hnz Hall Hsid Hn Hlt. unfold split_obs_per_species_frequency.
  rewrite map_species_tag. fold (tagged lines) (classes (map fst lines)).
  destruct (@shares_computed val_ratio (classes (map fst lines))) as (r & Hr).
  { intros s c Hin. apply classes_in in Hin. destruct Hin as [Hs ->].
    apply Hall, Hs. }
  rewrite Hr. cbn [bind]. unfold py_inverse. rewrite Hnz. cbn [bind].
  rewrite (@val_loop_raises (tagged lines) sid n r); [reflexivity | | |].
  - eapply shares_in; [exact Hr | apply class_of_line, Hsid | exact Hn].
  - lia.
  - rewrite count_pa_train. exact Hlt.
Qed.

Lemma oversized_share_raises_witness :
  split_obs_per_species_frequency (one_class 7 3) 2%float [] = Raise ValueError.
Proof.
  apply (@oversized_share_raises (one_class 7 3) 2%float [] 7%Z 6%Z).
  - reflexivity.
  - intros s Hs. cbn in Hs. exists 6%Z.
    destruct Hs as [<- | [<- | [<- | []]]]; reflexivity.
  - cbn. tauto.
  - reflexivity.
  - reflexivity.
Defined.

(** X20. The run returns its frames (raises nothing) whenever
    [val_ratio] is not zero and the rounded share of every class is
    computed and is at most the number of rows of the class. *)
Theorem split_obs_per_species_frequency_returns
    (lines : list Obs) (val_ratio : float) (rng : list nat) :
  PrimFloat.eqb val_ratio 0 = false ->
  (forall s, In s (map fst lines) ->
     exists m, n_val val_ratio (Z.of_nat (occurrences s lines)) = Ok m
               /\ (m <= Z.of_nat (occurrences s lines))%Z) ->
  exists out, split_obs_per_species_frequency lines val_ratio rng = Ok out.
Proof.
  intros Hnz Hall. unfold split_obs_per_species_frequency.
  rewrite map_species_tag. fold (tagged lines) (classes (map fst lines)).
  destruct (@shares_computed val_ratio (classes (map fst lines))) as (r & Hr).
  { intros s c Hin. apply classes_in in Hin. destruct Hin as [Hs ->].
    destruct (Hall s Hs) as (m & Hm & _). exists m. exact Hm. }
  rewrite Hr. cbn [bind]. unfold py_inverse. rewrite Hnz. cbn [bind].
  destruct (@val_loop_returns (tagged lines) r) with (rng := rng) (acc := @nil Row)
    as (pa_val & Hloop).
  { intros s m Hin. destruct (n_cls_val_inv _ _ Hr) as [_ Hinv].
    destruct (Hinv s m Hin) as (c & Hc & Hm).
    apply classes_in in Hc. destruct Hc as [Hs ->].
    destruct (Hall s Hs) as (m' & Hm' & Hle).
    rewrite count_pa_train. fold (occurrences s lines) in Hm.
    assert (m = m') by congruence. subst m'. exact Hle. }
  rewrite Hloop. cbn [bind].
  destruct (@drop_returns (tagged lines) (map index (retag "val" pa_val))) as (t & Ht).
  { rewrite map_index_retag. apply incl_map.
    eapply val_loop_incl; [exact Hloop | intros ? []]. }
  rewrite Ht. cbn [bind]. eexists. reflexivity.
Qed.

Lemma split_obs_per_species_frequency_returns_witness :
  exists out, split_obs_per_species_frequency thirty_lines one_tenth [3; 1; 4] = Ok out.
Proof.
  apply split_obs_per_species_frequency_returns.
  - reflexivity.
  - intros s Hs.
    assert (E : s = 7%Z \/ s = 3%Z).
    { cbn in Hs. repeat (destruct Hs as [<- | Hs]; [auto |]). destruct Hs. }
    destruct E as [-> | ->].
    + exists 2%Z. split; [reflexivity | vm_compute; discriminate].
    + exists 0%Z. split; [reflexivity | vm_compute; discriminate].
Defined.

Lemma sorted_seq a n : StronglySorted lt (seq a n).
Proof.
  revert a. induction n as [| n IH]; intros a; cbn [seq]; constructor.
  - apply IH.
  - apply Forall_forall. intros i Hi. apply in_seq in Hi. lia.
Qed.

Lemma sorted_map_filter {A} (f : A -> nat) (p : A -> bool) (l : list A) :
  StronglySorted lt (map f l) -> StronglySorted lt (map f (filter p l)).
Proof.
  induction l as [| a l IH]; cbn [map filter]; [auto |].
  intros H. apply StronglySorted_inv in H. destruct H as [Hl Ha].
  destruct (p a); [| apply IH, Hl].
  cbn [map]. constructor; [apply IH, Hl |].
  apply Forall_forall. intros i Hi. apply in_map_iff in Hi.
  destruct Hi as (x & <- & Hx). apply filter_In in Hx.
  rewrite Forall_forall in Ha. apply Ha, in_map. tauto.
Qed.

Lemma read_csv_in (lines : list Obs) i x :
  In (i, x) (read_csv lines) -> nth_error lines i = Some x.
Proof.
  unfold read_csv.
  assert (G : forall (l : list Obs) a,
             In (i, x) (combine (seq a (List.length l)) l) ->
             nth_error l (i - a) = Some x /\ a <= i).
  { induction l as [| y l IH]; intros a; cbn; [tauto |].
    intros [E | H].
    - injection E as <- <-. rewrite Nat.sub_diag. split; [reflexivity | lia].
    - apply IH in H. destruct H as [H Hle].
      replace (i - a) with (S (i - S a)) by lia. split; [exact H | lia]. }
  intros H. apply G in H. rewrite Nat.sub_0_r in H. tauto.
Qed.

(** X21. The train frame keeps the order of the file: the index labels
    of its rows (the line numbers of the input) are strictly increasing,
    and each of its rows is the line read at its label, tagged [train]. *)
Theorem train_keeps_the_file_order
    (lines : list Obs) (val_ratio : float) (rng : list nat) (out : output) :
  split_obs_per_species_frequency lines val_ratio rng = Ok out ->
  StronglySorted lt (map index (train out))
  /\ Forall (fun r => nth_error lines (index r) = Some (speciesId r, others r)
                      /\ subset r = "train")
       (train out).
Proof.
  intros Hrun.
  destruct (@run_inv lines val_ratio rng out Hrun)
    as (n_cls_val & pa_val & _ & _ & _ & _ & Hdrop & _).
  unfold drop in Hdrop. destruct (forallb _ _); [| discriminate].
  injection Hdrop as <-. split.
  - apply sorted_map_filter. unfold tagged. rewrite map_index_read_csv.
    apply sorted_seq.
  - apply Forall_forall. intros r Hr. apply filter_In in Hr. destruct Hr as [Hr _].
    unfold tagged, tag in Hr. apply in_map_iff in Hr.
    destruct Hr as ([i [s o]] & <- & Hio). cbn. split; [| reflexivity].
    apply read_csv_in, Hio.
Qed.

Lemma train_keeps_the_file_order_witness :
  exists out,
    split_obs_per_species_frequency thirty_lines one_tenth [3; 1; 4] = Ok out
    /\ StronglySorted lt (map index (train out)).
Proof.
  eexists. split; [reflexivity |].
  apply (@train_keeps_the_file_order thirty_lines one_tenth [3; 1; 4]).
  reflexivity.
Defined.

(** X22. With a [val_ratio] of zero (of either sign) the run never
    returns, whatever the file: every rounded share is computed (it is
    0), and the bound [1 / val_ratio] of the closing message then raises
    [ZeroDivisionError]; nothing is written. *)
Theorem zero_ratio_divides_by_zero
    (lines : list Obs) (val_ratio : float) (rng : list nat) :
  PrimFloat.eqb val_ratio 0 = true ->
  split_obs_per_species_frequency lines val_ratio rng = Raise ZeroDivisionError.
Proof.
  intros Hz. unfold split_obs_per_species_frequency.
  rewrite map_species_tag. fold (tagged lines) (classes (map fst lines)).
  destruct (@shares_computed val_ratio (classes (map fst lines))) as (r & Hr).
  { intros s c Hin. apply classes_in in Hin. destruct Hin as [_ ->].
    exists 0%Z. apply n_val_zero; [lia | exact Hz]. }
  rewrite Hr. cbn [bind]. unfold py_inverse. rewrite Hz. reflexivity.
Qed.

Lemma zero_ratio_divides_by_zero_witness :
  split_obs_per_species_frequency thirty_lines (- 0)%float [3; 1; 4]
  = Raise ZeroDivisionError.
Proof.
  apply zero_ratio_divides_by_zero. reflexivity.
Defined.

Lemma run_inv_count lines val_ratio rng out :
  split_obs_per_species_frequency lines val_ratio rng = Ok out ->
  exists n_cls_val bound pa_val,
    shares val_ratio (classes (map fst lines)) = Ok n_cls_val
    /\ py_inverse val_ratio = Ok bound
    /\ indivisible_sid_n_rows out = sum_below bound (map snd n_cls_val)
    /\ val_loop rng (tagged lines) n_cls_val [] = Ok pa_val
    /\ val out = retag "val" pa_val.
Proof.
  unfold split_obs_per_species_frequency.
  rewrite map_species_tag. fold (tagged lines) (classes (map fst lines)).
  destruct (mapM _ (classes (map fst lines))) as [n_cls_val |] eqn:Hn; [| discriminate].
  cbn [bind]. destruct (py_inverse val_ratio) as [bound |] eqn:Hb; [| discriminate].
  cbn [bind].
  destruct (val_loop rng (tagged lines) n_cls_val []) as [pa_val |] eqn:Hl; [| discriminate].
  cbn [bind]. destruct (drop _ _) as [t |]; [| discriminate].
  cbn [bind]. intros H. injection H as <-.
  exists n_cls_val, bound, pa_val. cbn [indivisible_sid_n_rows val].
  repeat split; assumption.
Qed.

(** The rows that the loop adds to the validation frame. *)
Lemma val_loop_length pa n_cls_val : forall rng acc res,
  val_loop rng pa n_cls_val acc = Ok res ->
  Z.of_nat (List.length res)
  = (Z.of_nat (List.length acc)
     + fold_right Z.add 0 (map (fun sn => if 1 <=? snd sn then snd sn else 0) n_cls_val))%Z.
Proof.
  induction n_cls_val as [| [s n] rest IH]; intros rng acc res; cbn [val_loop map fold_right snd].
  - intros H. injection H as <-. lia.
  - destruct (Z.leb_spec 1 n) as [Hn | Hn].
    + destruct (sample rng _ n) as [[smp rng'] | e] eqn:Hs; [| discriminate].
      cbn [bind]. intros H. apply IH in H. rewrite H, length_app.
      apply sample_spec in Hs. destruct Hs as [_ Hlen]. lia.
    + intros H. apply IH in H. lia.
Qed.

Lemma sum_filter_bounds (q : Z -> bool) (ns : list Z) :
  Forall (fun n => 0 <= n)%Z ns ->
  (0 <= fold_right Z.add 0 (filter q ns)
   <= fold_right Z.add 0 (map (fun n => if 1 <=? n then n else 0) ns))%Z.
Proof.
  induction 1 as [| n ns Hn _ IH]; cbn [filter map fold_right]; [lia |].
  destruct (q n); cbn [fold_right]; destruct (Z.leb_spec 1 n); lia.
Qed.

(** X23. The count printed in the closing message adds up validation
    shares, not rows left out of val: when no share is negative it lies
    between 0 and the number of validation rows (a file of fewer than
    2^63 lines). *)
Theorem closing_count_is_within_val
    (lines : list Obs) (val_ratio : float) (rng : list nat) (out : output) :
  split_obs_per_species_frequency lines val_ratio rng = Ok out ->
  (forall s m, In s (map fst lines) ->
     n_val val_ratio (Z.of_nat (occurrences s lines)) = Ok m -> 0 <= m)%Z ->
  (Z.of_nat (List.length lines) < 2 ^ 63)%Z ->
  (0 <= indivisible_sid_n_rows out <= Z.of_nat (List.length (val out)))%Z.
Proof.
  intros Hrun Hpos Hlen.
  assert (Hle : List.length (val out) <= List.length lines).
  { destruct (@frequency_partition lines val_ratio rng out Hrun) as (Hp & _).
    apply Permutation_length in Hp.
    rewrite length_map, length_app in Hp. unfold read_csv in Hp.
    rewrite length_combine, length_seq, Nat.min_id in Hp. lia. }
  destruct (run_inv_count _ _ _ Hrun)
    as (n_cls_val & bound & pa_val & Hn & _ & -> & Hloop & Hval).
  rewrite Hval in *. unfold retag in *. rewrite length_map in *.
  assert (Hns : Forall (fun n => 0 <= n)%Z (map snd n_cls_val)).
  { apply Forall_forall. intros n Hin. apply in_map_iff in Hin.
    destruct Hin as ([s m] & <- & Hin). cbn [snd].
    destruct (n_cls_val_inv _ _ Hn) as [_ Hinv].
    destruct (Hinv s m Hin) as (c & Hc & Hm).
    apply classes_in in Hc. destruct Hc as [Hs ->]. apply (Hpos s m Hs Hm). }
  pose proof (val_loop_length _ _ _ _ Hloop) as Hv. cbn [List.length] in Hv.
  rewrite <- (map_map snd (fun n => if (1 <=? n)%Z then n else 0%Z)) in Hv.
  pose proof (sum_filter_bounds
                (fun k => PrimFloat.ltb (float_of_int k) bound) Hns) as Hsum.
  unfold sum_below, wrap64.
  rewrite Z.mod_small by lia. lia.
Qed.

Lemma closing_count_is_within_val_witness :
  exists out,
    split_obs_per_species_frequency thirty_lines one_tenth [3; 1; 4] = Ok out
    /\ (0 <= indivisible_sid_n_rows out <= Z.of_nat (List.length (val out)))%Z.
Proof.
  eexists. split; [reflexivity |].
  apply (@closing_count_is_within_val thirty_lines one_tenth [3; 1; 4]).
  - reflexivity.
  - intros s m Hs.
    assert (E : s = 7%Z \/ s = 3%Z).
    { cbn in Hs. repeat (destruct Hs as [<- | Hs]; [auto |]). destruct Hs. }
    destruct E as [-> | ->]; intros H; vm_compute in H; injection H as <-; lia.
  - vm_compute. reflexivity.
Defined.

End FrequencyFurther.

(* ================================================================== *)
(** * Further properties: the spatial splitter *)

Module SpatialFurther.
Import Table Spatial ListFacts SpatialFacts.
Local Open Scope nat_scope.

(** ** Frames *)

Lemma get_set_same (df : Frame) col v : get_item (set_item df col v) col = Some v.
Proof.
  unfold get_item. induction df as [| [name c] df IH]; cbn [set_item find fst].
  - rewrite String.eqb_refl. reflexivity.
  - destruct (String.eqb_spec name col) as [-> | Hne]; cbn [find fst].
    + rewrite String.eqb_refl. reflexivity.
    + apply String.eqb_neq in Hne. rewrite Hne. exact IH.
Qed.

Lemma get_set_other (df : Frame) col v name :
  name <> col -> get_item (set_item df col v) name = get_item df name.
Proof.
  intros Hne. unfold get_item.
  induction df as [| [n c] df IH]; cbn [set_item find fst].
  - destruct (String.eqb_spec col name); [congruence | reflexivity].
  - destruct (String.eqb_spec n col) as [-> | Hn]; cbn [find fst].
    + destruct (String.eqb_spec col name); [congruence | reflexivity].
    + destruct (String.eqb n name); [reflexivity | exact IH].
Qed.

Lemma fill_get_other cols : forall (dt dv : Frame) (t v : list (list cell)) name,
  ~ In name cols ->
  get_item (fst (fill dt dv t v cols)) name = get_item dt name
  /\ get_item (snd (fill dt dv t v cols)) name = get_item dv name.
Proof.
  induction cols as [| c cols IH]; intros dt dv t v name Hn.
  - destruct t, v; cbn; auto.
  - destruct t as [| a t], v as [| b v]; cbn [fill fst snd]; auto.
    destruct (IH (set_item dt c a) (set_item dv c b) t v name) as [H1 H2];
      [cbn in Hn; tauto |].
    rewrite H1, H2, !get_set_other by (cbn in Hn; intros ->; tauto). auto.
Qed.

(** After the loop a column named in [cols] holds the array zipped with
    its name. *)
Lemma fill_get cols : forall (dt dv : Frame) (t v : list (list cell)) k name,
  NoDup cols ->
  List.length t = List.length cols -> List.length v = List.length cols ->
  nth_error cols k = Some name ->
  get_item (fst (fill dt dv t v cols)) name = nth_error t k
  /\ get_item (snd (fill dt dv t v cols)) name = nth_error v k.
Proof.
  induction cols as [| c cols IH]; intros dt dv t v k name Hnd Ht Hv Hk.
  - destruct k; discriminate.
  - destruct t as [| a t], v as [| b v]; try discriminate.
    inversion Hnd as [| ? ? Hc Hnd']; subst. cbn [fill].
    destruct k as [| k]; cbn [nth_error] in *.
    + injection Hk as <-.
      destruct (fill_get_other cols (set_item dt c a) (set_item dv c b) t v c Hc)
        as [H1 H2].
      rewrite H1, H2, !get_set_same. auto.
    + apply IH; auto.
Qed.

Lemma take_ok index arr x : take index arr = Ok x -> x = gather index arr.
Proof.
  unfold take, gather. revert x.
  induction index as [| i index IH]; intros x; cbn [mapM map].
  - intros H. injection H as <-. reflexivity.
  - destruct (nth_error arr i) as [c |] eqn:E; [| discriminate]. cbn [of_option bind].
    destruct (mapM _ index) as [r |]; [| discriminate]. cbn [bind].
    intros H. injection H as <-. f_equal; [| apply IH; reflexivity].
    symmetry. apply nth_error_nth, E.
Qed.

Lemma takes_ok index (cols r : list (list cell)) :
  mapM (take index) cols = Ok r -> r = map (gather index) cols.
Proof.
  revert r. induction cols as [| c cols IH]; intros r; cbn [mapM map].
  - intros H. injection H as <-. reflexivity.
  - destruct (take index c) as [x |] eqn:E; [| discriminate]. cbn [bind].
    destruct (mapM _ cols) as [r' |]; [| discriminate]. cbn [bind].
    intros H. injection H as <-. f_equal; [apply take_ok, E | apply IH; reflexivity].
Qed.

(** The frames of a run that returns. *)
Lemma split_obs_spatially_inv df split out :
  split_obs_spatially df split = Ok out ->
  exists a1 a2 rest,
    map snd (coords_of df) = a1 :: a2 :: rest
    /\ fill [("lon", gather (fst split) a1); ("lat", gather (fst split) a2);
             ("subset", repeat (Str "train") (List.length (fst split)))]
            [("lon", gather (snd split) a1); ("lat", gather (snd split) a2);
             ("subset", repeat (Str "val") (List.length (snd split)))]
            (map (gather (fst split)) (map snd (data_of df)))
            (map (gather (snd split)) (map snd (data_of df)))
            (map fst (data_of df))
       = (df_train out, df_val out)
    /\ df_train_val out = concat (df_train out) (df_val out).
Proof.
  unfold split_obs_spatially, spatial_tts. fold (coords_of df) (data_of df).
  destruct (_ <? 2); [discriminate |].
  destruct (mapM (take (fst split)) (map snd (coords_of df))) as [ct |] eqn:Hct;
    [| discriminate].
  cbn [bind].
  destruct (mapM (take (fst split)) (map snd (data_of df))) as [dt |] eqn:Hdt;
    [| discriminate].
  cbn [bind].
  destruct (mapM (take (snd split)) (map snd (coords_of df))) as [cv |] eqn:Hcv;
    [| discriminate].
  cbn [bind].
  destruct (mapM (take (snd split)) (map snd (data_of df))) as [dv |] eqn:Hdv;
    [| discriminate].
  cbn [bind fst snd].
  apply takes_ok in Hct, Hdt, Hcv, Hdv. subst ct dt cv dv.
  destruct (map snd (coords_of df)) as [| a1 [| a2 rest]]; try discriminate.
  cbn [map nth_error of_option bind len set_item String.eqb Ascii.eqb Bool.eqb].
  unfold gather at 3 6. rewrite !length_map.
  fold (gather (fst split) a1) (gather (snd split) a1).
  destruct (fill _ _ _ _ _) as [dtr dva] eqn:Hfill.
  intros H. injection H as <-. cbn [df_train df_val df_train_val].
  exists a1, a2, rest. repeat split. exact Hfill.
Qed.

(** X24. Every column of the input other than [lon] and [lat] is carried
    to train and to val under its own name, with its values at the
    positions drawn; this holds for an input column named [subset] too,
    whose values then stand where the [train] and [val] tags would. *)
Theorem data_columns_are_carried_by_name
    (df : Frame) (split : list nat * list nat) (out : output)
    (name : string) (c : list cell) :
  NoDup (columns df) ->
  split_obs_spatially df split = Ok out ->
  In (name, c) df -> name <> "lon" -> name <> "lat" ->
  get_item (df_train out) name = Some (gather (fst split) c)
  /\ get_item (df_val out) name = Some (gather (snd split) c).
Proof.
  intros Hnd Hrun Hin Hlon Hlat.
  destruct (split_obs_spatially_inv _ _ Hrun) as (a1 & a2 & rest & _ & Hfill & _).
  assert (Hd : In (name, c) (data_of df)).
  { apply filter_In. split; [exact Hin |]. unfold is_coord. cbn [fst].
    apply negb_true_iff, orb_false_iff. rewrite !String.eqb_neq. auto. }
  apply In_nth_error in Hd. destruct Hd as (k & Hk).
  destruct (@fill_get (map fst (data_of df))
              [("lon", gather (fst split) a1); ("lat", gather (fst split) a2);
               ("subset", repeat (Str "train") (List.length (fst split)))]
              [("lon", gather (snd split) a1); ("lat", gather (snd split) a2);
               ("subset", repeat (Str "val") (List.length (snd split)))]
              (map (gather (fst split)) (map snd (data_of df)))
              (map (gather (snd split)) (map snd (data_of df))) k name)
    as [H1 H2].
  - apply NoDup_map_filter, Hnd.
  - rewrite !length_map. reflexivity.
  - rewrite !length_map. reflexivity.
  - rewrite nth_error_map, Hk. reflexivity.
  - rewrite Hfill in H1, H2. cbn [fst snd] in H1, H2.
    rewrite H1, H2, !nth_error_map, Hk. auto.
Qed.

Lemma data_columns_are_carried_by_name_witness :
  exists out,
    split_obs_spatially with_subset ([1], [0]) = Ok out
    /\ get_item (df_train out) "subset" = Some [Str "south"]
    /\ get_item (df_val out) "subset" = Some [Str "north"].
Proof.
  eexists. split; [reflexivity |].
  apply (@data_columns_are_carried_by_name with_subset ([1], [0]) _
           "subset" [Str "north"; Str "south"]).
  - repeat constructor; cbn; intuition discriminate.
  - reflexivity.
  - cbn. tauto.
  - discriminate.
  - discriminate.
Defined.

Lemma columns_concat (a b : Frame) : columns (concat a b) = columns a.
Proof. unfold columns, concat. rewrite map_map. reflexivity. Qed.

(** X25. The frames written have the columns [lon], [lat], [subset] and
    then the other columns of the input in the order of the file,
    wherever [lon] and [lat] stand in the input (distinct column names,
    none named [subset]). *)
Theorem output_columns
    (df : Frame) (split : list nat * list nat) (out : output) :
  NoDup (columns df) -> ~ In "subset" (columns df) ->
  split_obs_spatially df split = Ok out ->
  columns (df_train out) = "lon" :: "lat" :: "subset" :: columns (data_of df)
  /\ columns (df_val out) = columns (df_train out)
  /\ columns (df_train_val out) = columns (df_train out).
Proof.
  intros Hnd Hsub Hrun.
  destruct (split_obs_spatially_inv _ _ Hrun) as (a1 & a2 & rest & _ & Hfill & Hcat).
  rewrite fill_fresh in Hfill.
  - rewrite Hcat, columns_concat. injection Hfill as <- <-. unfold columns.
    cbn [fst app map].
    rewrite !map_fst_combine by (rewrite !length_map; reflexivity).
    repeat split.
  - apply NoDup_map_filter, Hnd.
  - intros c Hc. apply in_map_iff in Hc. destruct Hc as (nc & <- & Hnc).
    apply filter_In in Hnc. destruct Hnc as [Hdf Hnc]. unfold is_coord in Hnc.
    apply negb_true_iff, orb_false_iff in Hnc. rewrite !String.eqb_neq in Hnc.
    assert (fst nc <> "subset").
    { intros E. apply Hsub. rewrite <- E. apply in_map, Hdf. }
    cbn. intuition congruence.
  - rewrite !length_map. reflexivity.
  - rewrite !length_map. reflexivity.
Qed.

Lemma output_columns_witness :
  exists out,
    split_obs_spatially lon_first ([1], [0]) = Ok out
    /\ columns (df_train out) = ["lon"; "lat"; "subset"; "speciesId"].
Proof.
  eexists. split; [reflexivity |].
  apply (@output_columns lon_first ([1], [0])).
  - repeat constructor; cbn; intuition discriminate.
  - cbn. intuition discriminate.
  - reflexivity.
Defined.

Lemma get_item_concat (a b : Frame) name t :
  get_item a name = Some t ->
  get_item (concat a b) name
  = Some (t ++ match get_item b name with Some c => c | None => [] end)%list.
Proof.
  unfold concat, get_item at 1 2.
  induction a as [| [n c] a IH]; cbn [map find fst snd]; [discriminate |].
  destruct (String.eqb_spec n name) as [-> | _].
  - cbn. intros H. injection H as <-. reflexivity.
  - exact IH.
Qed.

(** X26. The third frame written, [df_train_val], is the train frame
    followed by the val frame: each of its columns is the train column
    of that name, then the val column of that name. *)
Theorem train_val_is_train_then_val
    (df : Frame) (split : list nat * list nat) (out : output)
    (name : string) (t v : list cell) :
  split_obs_spatially df split = Ok out ->
  get_item (df_train out) name = Some t ->
  get_item (df_val out) name = Some v ->
  get_item (df_train_val out) name = Some (t ++ v)%list.
Proof.
  intros Hrun Ht Hv.
  destruct (split_obs_spatially_inv _ _ Hrun) as (_ & _ & _ & _ & _ & ->).
  rewrite (@get_item_concat (df_train out) (df_val out) name t Ht), Hv. reflexivity.
Qed.

Lemma train_val_is_train_then_val_witness :
  exists out,
    split_obs_spatially lon_first ([1], [0]) = Ok out
    /\ get_item (df_train_val out) "speciesId" = Some [Int 5; Int 17].
Proof.
  eexists. split; [reflexivity |].
  apply (@train_val_is_train_then_val lon_first ([1], [0]) _ "speciesId" [Int 5] [Int 17]);
    reflexivity.
Defined.

End SpatialFurther.

(* ================================================================== *)
(** * Further properties: the path of the csv file *)

Module PathsFacts.
Import Files Paths RegexFacts FilesFacts.
Local Open Scope nat_scope.

Lemma string_of_list_app (a b : list ascii) :
  string_of_list_ascii (a ++ b) = string_of_list_ascii a ++ string_of_list_ascii b.
Proof. induction a as [| c a IH]; cbn; [reflexivity | f_equal; exact IH]. Qed.

Lemma drop_last_app (p w : string) :
  drop_last (String.length w) (p ++ w) = p.
Proof.
  unfold drop_last. rewrite list_ascii_app, length_app.
  replace (String.length w) with (List.length (list_ascii_of_string w)).
  - rewrite Nat.add_sub, firstn_app, Nat.sub_diag, firstn_all. cbn [firstn].
    rewrite app_nil_r. apply string_of_list_ascii_of_string.
  - clear. induction w as [| c w IH]; cbn; [reflexivity | f_equal; exact IH].
Qed.

Lemma endswith_iff s w : endswith s w = true <-> exists p, s = p ++ w.
Proof.
  unfold endswith. rewrite has_suffix_iff. split.
  - intros (p & H). exists (string_of_list_ascii p).
    rewrite <- (string_of_list_ascii_of_string s), H, string_of_list_app.
    rewrite string_of_list_ascii_of_string. reflexivity.
  - intros (p & ->). exists (list_ascii_of_string p). apply list_ascii_app.
Qed.

(** X27. The csv file that the two splitters read: the input path itself
    when it ends with [.csv], the input path with [.csv] added otherwise;
    so a path may be given with or without the extension, and [.csv] is
    removed once only. *)
Theorem csv_path_of_an_input_path (p : string) :
  csv_path p = (if endswith p ".csv" then p else p ++ ".csv")
  /\ input_name (p ++ ".csv") = p
  /\ csv_path (p ++ ".csv") = p ++ ".csv".
Proof.
  assert (Hstem : input_name (p ++ ".csv") = p).
  { unfold input_name.
    replace (endswith (p ++ ".csv") ".csv") with true
      by (symmetry; apply endswith_iff; exists p; reflexivity).
    apply (drop_last_app p ".csv"). }
  repeat split.
  - unfold csv_path, input_name. destruct (endswith p ".csv") eqn:E; [| reflexivity].
    apply endswith_iff in E. destruct E as (q & ->).
    pose proof (drop_last_app q ".csv") as H. cbn [String.length] in H.
    rewrite H. reflexivity.
  - exact Hstem.
  - unfold csv_path. rewrite Hstem. reflexivity.
Qed.

End PathsFacts.
